(** * data_dump.py: bulk export of a vault table, and the token pass

    A shallow embedding of [src/data_dump.py].  The script is a straight
    line of module-level statements around three functions
    ([make_api_call], [process_chunk], [process_token_chunk]); every one of
    them acts on the outside world, so the embedding threads an explicit
    [State] through the code:

    - the remote service is an oracle [http] acting on an abstract remote
      state [W] (a request may be answered differently each time);
    - [time.sleep], [print], the error log file, the two temporary buffers
      and the two output files are fields of [State];
    - [exit(1)] and an uncaught exception are results of the run.

    The four files (error log, output, token output, temporaries) are taken
    to be distinct paths.  The jobs of one wave are run one after the other in
    submission order, which is one of the schedules of the thread pool (the
    pool is joined before the script goes on); what a statement says of the
    rows and of the requests of a wave is said up to their order.

    The files are tables of cells.  The script writes every file with
    [newline=''] and reads three of them back with [open(path, mode='r')]:
    such a read gives the cells with their line ends translated
    ([universal_newlines]).

    A body is modelled as far as the script reads it: ['records'] is a list
    of records or is missing, ['fields'] is a dictionary of scalars or is
    missing.  A body with one of them of another JSON type (null, a number,
    ...) makes the script raise at the same places (lines 94, 118, 150); such
    bodies are outside the model, and no statement below lists the
    exceptions of a step exhaustively. *)

From Stdlib Require Import Ascii.
From stdpp Require Import gmap strings list pretty.

Local Open Scope Z_scope.

(** ** Data *)

(** A JSON scalar as the service returns it in a record (strings, integers
    and null; other JSON values are not modelled). *)
Inductive jvalue :=
| JStr (s : string)
| JInt (z : Z)
| JNull.

(** A record of a response: [record['fields']], an ordered mapping (Python
    dictionaries keep insertion order), absent when the key is missing. *)
Record record := mkRecord { fields : option (list (string * jvalue)) }.

(** The decoded body of a response: [response.json()], with its ['records']
    entry, absent when the key is missing. *)
Record body := mkBody { records : option (list record) }.

(** [requests.Response]: status, reason phrase, raw text and the decoded
    body ([None] when [response.json()] raises). *)
Record Response := mkResponse {
  status_code : Z;
  reason : string;
  text : string;
  json : option body
}.

Inductive Method := GET | POST.

Record Request := mkRequest {
  method : Method;
  url : string;
  data : option (list (string * string))
}.

(** What one [requests.get]/[requests.post] does: a response comes back, or
    the transport raises a [requests.RequestException]. *)
Inductive Outcome :=
| Resp (r : Response)
| ConnErr (e : string).

Inductive Redaction := DEFAULT | REDACTED | MASKED | PLAIN_TEXT.

Definition redaction_str (r : Redaction) : string :=
  match r with
  | DEFAULT => "DEFAULT"
  | REDACTED => "REDACTED"
  | MASKED => "MASKED"
  | PLAIN_TEXT => "PLAIN_TEXT"
  end.

(** The command line, after [parser.parse_args()]. *)
Record Args := mkArgs {
  VAULT_ID : string;
  VAULT_URL : string;
  REDACTION_LEVEL : Redaction;
  TABLE_NAME : string;
  OUTPUT_CSV : string;
  OUTPUT_TOKEN_CSV : option string;
  MAX_PARALLEL_TASKS : Z;
  ROWS_PER_CHUNK : Z;
  DUMP_TOKENS_ENABLED : bool;
  UNIQUE_ID_COLUMN : option string;
  ERROR_LOG_FILE : string
}.

(** What argparse enforces: [--mt] has [choices=range(1, 8)];
    [--rows_per_call] is any integer. *)
Definition args_ok (a : Args) : Prop := 1 ≤ MAX_PARALLEL_TASKS a ≤ 7.

(** A CSV file as the [csv] module sees it: rows of cells. *)
Abbreviation row := (list string).
Abbreviation table := (list (list string)).

(** An exception that nothing catches. *)
Inductive exn :=
| KeyError (k : string)
| ValueError (msg : string)
| IndexError (msg : string)
| TypeError (msg : string)
| JSONDecodeError.

(** The result of a job of a wave: the value of [future.result()], or the
    exception it re-raises. *)
Abbreviation job_result := (exn + Z)%type.

(** How the script ends. *)
Inductive Exit :=
| Completed          (* falls off the end: status 0 *)
| SysExit (code : Z) (* exit(code) *)
| Uncaught (e : exn) (* traceback: status 1 *)
| Diverges.          (* the fuel of a [while] ran out *)

Definition exit_status (e : Exit) : option Z :=
  match e with
  | Completed => Some 0
  | SysExit c => Some c
  | Uncaught _ => Some 1
  | Diverges => None
  end.

(** ** Strings *)

(** [needle in s] on Python strings. *)
Fixpoint prefixb (p s : string) : bool :=
  match p, s with
  | EmptyString, _ => true
  | String a p', String b s' => if decide (a = b) then prefixb p' s' else false
  | String _ _, EmptyString => false
  end.

Fixpoint contains (needle s : string) : bool :=
  prefixb needle s ||
  match s with
  | EmptyString => false
  | String _ s' => contains needle s'
  end.

(** *** Reading a file in text mode *)

Definition CR : ascii := "013"%char.
Definition LF : ascii := "010"%char.

(** What [open(path, mode='r')] (universal newlines) makes of the text of a
    cell: a carriage return followed by a line feed, and a carriage return
    alone, are read as one line feed. *)
Fixpoint universal_newlines (s : string) : string :=
  match s with
  | EmptyString => EmptyString
  | String c s' =>
      if decide (c = CR) then
        String LF
          match s' with
          | String c' s'' =>
              if decide (c' = LF) then universal_newlines s''
              else universal_newlines s'
          | EmptyString => EmptyString
          end
      else String c (universal_newlines s')
  end.

(** [csv.reader(f)] for [f = open(path, mode='r')], on a file written by a
    [csv.writer] on a file opened with [newline='']: the writer quotes a
    cell that holds a line end, so the rows and the cells are those written,
    each cell with its line ends translated. *)
Definition text_mode (t : list (list string)) : list (list string) :=
  (λ cells : list string, universal_newlines <$> cells) <$> t.

(** *** repr *)

Definition hex_digits : list ascii :=
  ["0"; "1"; "2"; "3"; "4"; "5"; "6"; "7"; "8"; "9"; "a"; "b"; "c"; "d"; "e"; "f"]%char.

Definition hex2 (c : ascii) : string :=
  let n := nat_of_ascii c in
  String (nth (n / 16) hex_digits "0"%char)
    (String (nth (n mod 16) hex_digits "0"%char) EmptyString).

(** The characters of [repr(s)] between the quotes [q]: the quote and the
    backslash are escaped, tab, line feed and carriage return have their
    letter, the other control characters are written with their code in
    hexadecimal; a character above 127 is copied (it is taken to be part of
    a printable character). *)
Fixpoint repr_chars (q : ascii) (s : string) : string :=
  match s with
  | EmptyString => EmptyString
  | String c s' =>
      (if decide (c = q ∨ c = "\"%char) then String "\"%char (String c EmptyString)
       else if decide (c = "009"%char) then "\t"
       else if decide (c = LF) then "\n"
       else if decide (c = CR) then "\r"
       else if decide (nat_of_ascii c < 32 ∨ nat_of_ascii c = 127)%nat then
         "\x" +:+ hex2 c
       else String c EmptyString) +:+ repr_chars q s'
  end.

(** [repr(s)] for a string: between double quotes when [s] has a single
    quote and no double quote, between single quotes otherwise. *)
Definition py_repr (s : string) : string :=
  let dq := "034"%char in
  let q := if contains "'" s && negb (contains (String dq EmptyString) s)
           then dq else "'"%char in
  String q (repr_chars q s +:+ String q EmptyString).

(** Python's truth value of an optional string: [None] and [''] are false. *)
Definition truthy (o : option string) : option string :=
  match o with
  | Some s => if decide (s = "") then None else Some s
  | None => None
  end.

(** ** The world the script acts on *)

Record State (W : Type) := mkState {
  net : W;                          (* the remote service *)
  http_log : list Request;          (* requests sent, oldest first *)
  slept : list Z;                   (* arguments of time.sleep, oldest first *)
  error_log : list string;          (* lines of ERROR_LOG_FILE *)
  stdout : list string;             (* lines printed *)
  temp_output : option table;       (* the scan buffer *)
  output_csv : option table;        (* OUTPUT_CSV *)
  temp_token : option table;        (* the token buffer *)
  output_token_csv : option table   (* OUTPUT_TOKEN_CSV *)
}.

Arguments mkState {W}.
Arguments net {W}.
Arguments http_log {W}.
Arguments slept {W}.
Arguments error_log {W}.
Arguments stdout {W}.
Arguments temp_output {W}.
Arguments output_csv {W}.
Arguments temp_token {W}.
Arguments output_token_csv {W}.

(** ** Python values *)

(** A Python dictionary built from key/value pairs: a later pair with the
    same key overwrites an earlier one. *)
Definition py_dict {V} (pairs : list (string * V)) : gmap string V :=
  foldl (λ m kv, <[kv.1 := kv.2]> m) ∅ pairs.

(** The column of the answer to the count query. *)
Definition count_star : string := "count(" +:+ "*" +:+ ")".

(** ** Test doubles for the remote service

    Small services and a small table, on which the statements of the last
    part of the file are run. *)

(** A scripted service: for each URL the outcomes of the successive
    requests; the last one is repeated for ever, and an unknown URL does not
    answer. *)
Definition script := list (string * list Outcome).

Fixpoint play (u : string) (w : script) : Outcome * script :=
  match w with
  | [] => (ConnErr "connection refused", [])
  | (u', os) :: w' =>
      if decide (u = u') then
        match os with
        | [] => (ConnErr "connection refused", w)
        | [o] => (o, w)
        | o :: os' => (o, (u', os') :: w')
        end
      else let '(o, w'') := play u w' in (o, (u', os) :: w'')
  end.

Definition scripted (req : Request) (w : script) : Outcome * script :=
  play (url req) w.

(** A service that is down. *)
Definition down (req : Request) (w : unit) : Outcome * unit :=
  (ConnErr "connection refused", w).

Definition ok (recs : list record) : Outcome :=
  Resp (mkResponse 200 "OK" "{...}" (Some (mkBody (Some recs)))).

Definition unavailable : Outcome :=
  Resp (mkResponse 503 "Service Unavailable" "try later" None).

Definition fresh {W} (w : W) : State W :=
  mkState w [] [] [] [] None None None None.

Definition no_clock (k : nat) : string := "0.00".

(** A table of five people, read two rows at a time. *)
Definition person (i e n : string) : record :=
  mkRecord (Some [("name", JStr n); ("skyflow_id", JStr i); ("email", JStr e)]).

Definition demo_args : Args :=
  mkArgs "v1" "host" PLAIN_TEXT "people" "out.csv" (Some "tokens.csv")
         5 2 false (Some "email") "error_log.txt".

Definition count_is (n : Z) : Outcome :=
  ok [mkRecord (Some [(count_star, JInt n)])].

Definition p1 := person "id1" "a@x" "Ann".
Definition p2 := person "id2" "b@x" "Bob".
Definition p3 := person "id3" "c@x" "Cy".
Definition p4 := person "id4" "d@x" "Di".
Definition p5 := person "id5" "e@x" "Ed".

Definition page_url (o : string) : string :=
  "https://host/v1/vaults/v1/people?redaction=PLAIN_TEXT&offset=" +:+ o
    +:+ "&order_by=ASCENDING".

(** Every page answers. *)
Definition healthy : script :=
  [("https://host/v1/vaults/v1/query", [count_is 5]);
   (page_url "0", [ok [p1; p2]]);
   (page_url "2", [ok [p3; p4]]);
   (page_url "4", [ok [p5]])].

(** The page at offset 2 never answers. *)
Definition lossy : script :=
  [("https://host/v1/vaults/v1/query", [count_is 5]);
   (page_url "0", [ok [p1; p2]]);
   (page_url "2", [unavailable]);
   (page_url "4", [ok [p5]])].

(** ** Vocabulary of the statements *)

(** [n] offsets from [start], [step] apart. *)
Fixpoint progression (start step : Z) (n : nat) : list Z :=
  match n with
  | O => []
  | S n' => start :: progression (start + step) step n'
  end.

(** The number of chunks of width [step] needed from [offset] to reach
    [total]. *)
Definition chunks_left (step total offset : Z) : nat :=
  Z.to_nat ((total - offset + step - 1) `div` step).

(** The rows a chunk at [offset] is planned to bring. *)
Definition planned (step total offset : Z) : Z := Z.min step (total - offset).


(** An entry of the error log written by [process_chunk] (the requester
    writes entries that start with "API call failed"). *)
Definition chunk_level (line : string) : bool :=
  prefixb "Error occurred at offset " line.

(** The rows a chunk at [offset] contributes to the count when the chunk at
    [failing] is lost and every other chunk brings its planned rows. *)
Definition contribution (step total failing offset : Z) : Z :=
  if decide (offset = failing) then 0 else planned step total offset.

(** [row[name]] for a row of a table with the header [fieldnames], as
    [csv.DictReader] presents it. *)
Definition cell (fieldnames : list string) (name : string) (r : row) : option string :=
  py_dict (zip fieldnames r) !! name.


(** A row written through a [DictWriter] with the field names [fieldnames]:
    one cell per field name, decided by the name. *)
Definition written_with (fieldnames : list string) (r : row) : Prop :=
  ∃ g : string → string, r = g <$> fieldnames.

(** The identifier and the value of the unique column of each row of the
    dump, in order: the pairs the map of the token phase is built from. *)
Definition join_pairs (fieldnames : list string) (u : string) (rows : table)
  : list (string * string) :=
  (λ r, (default "" (cell fieldnames "skyflow_id" r),
         default "" (cell fieldnames u r))) <$> rows.


(** The command line with another [--rows_per_call]. *)
Definition with_rows_per_call (n : Z) (a : Args) : Args :=
  mkArgs (VAULT_ID a) (VAULT_URL a) (REDACTION_LEVEL a) (TABLE_NAME a)
    (OUTPUT_CSV a) (OUTPUT_TOKEN_CSV a) (MAX_PARALLEL_TASKS a) n
    (DUMP_TOKENS_ENABLED a) (UNIQUE_ID_COLUMN a) (ERROR_LOG_FILE a).

(** A service without memory, which answers a URL with the first outcome
    that the script has for it. *)
Definition fixed (w : script) (req : Request) (_ : unit) : Outcome * unit :=
  ((play (url req) w).1, tt).

(** The first answer to the page at offset 0 is lost, the second comes. *)
Definition flaky : script :=
  [(page_url "0", [unavailable; ok [p1; p2]])].

(** The second record of the first page has a field that the first lacks. *)
Definition ragged : script :=
  [("https://host/v1/vaults/v1/query", [count_is 2]);
   (page_url "0",
    [ok [p1; mkRecord (Some [("skyflow_id", JStr "id2"); ("phone", JStr "555")])]])].

(** The same command line with a unique column that the table lacks. *)
Definition demo_args_ssn : Args :=
  mkArgs "v1" "host" PLAIN_TEXT "people" "out.csv" (Some "tokens.csv")
         5 2 false (Some "ssn") "error_log.txt".

(** A row given by its cells, column by column. *)
Definition cells_of (cs : list (string * string)) (f : string) : string :=
  default "" (py_dict cs !! f).

(** ** Credentials: lines 43-57 and 127-135 *)

(** The two ways to authenticate, as argparse leaves them. *)
Record Credentials := mkCredentials {
  PATH_TO_CREDENTIALS_JSON : option string;
  BEARER_TOKEN : option string
}.

(** Line 44: the condition of [parser.error]: both options given, or
    neither; an empty string counts as not given. *)
Definition credentials_rejected (c : Credentials) : bool :=
  match truthy (PATH_TO_CREDENTIALS_JSON c), truthy (BEARER_TOKEN c) with
  | Some _, Some _ => true
  | None, None => true
  | _, _ => false
  end.

(** The module-level [bearerToken] and [tokenType], and the state of the
    service behind the SDK. *)
Record AuthState (G : Type) := mkAuth {
  bearerToken : option string;
  tokenType : string;
  sdk : G
}.

Arguments mkAuth {G}.
Arguments bearerToken {G}.
Arguments tokenType {G}.
Arguments sdk {G}.

Section Auth.

(** The two functions imported from [skyflow.service_account]. *)
Context {G : Type}.
Variable generate_bearer_token : option string → G → (string * string) * G.
Variable is_expired : string → G → bool.
Variable creds : Credentials.

(** Lines 51-57.  [not bearerToken] holds for [None] and for the empty
    string; only then is the token looked at. *)
Definition token_provider (st : AuthState G) : (option string * string) * AuthState G :=
  match truthy (bearerToken st) with
  | Some _ => ((bearerToken st, tokenType st), st)
  | None =>
      if match bearerToken st with
         | None => true
         | Some t => is_expired t (sdk st)
         end
      then
        let '((token, type), g) :=
          generate_bearer_token (PATH_TO_CREDENTIALS_JSON creds) (sdk st) in
        ((Some token, type), mkAuth (Some token) type g)
      else ((bearerToken st, tokenType st), st)
  end.

(** Lines 48-49: the module-level variables at the start. *)
Definition auth_start (g : G) : AuthState G :=
  mkAuth (BEARER_TOKEN creds) "Bearer" g.

(** Lines 127-135: the access token and the headers of every request. *)
Definition startup (g : G) : list (string * string) * AuthState G :=
  let '(accessToken, st) :=
    match truthy (BEARER_TOKEN creds) with
    | None =>
        let '((accessToken, _), st) := token_provider (auth_start g) in
        (accessToken, st)
    | Some _ => (BEARER_TOKEN creds, auth_start g)
    end in
  ([("Authorization", "Bearer " +:+ default "None" accessToken);
    ("Content-Type", "application/json")], st).

End Auth.

(** An SDK that counts the tokens it has generated. *)
Definition counting_sdk (path : option string) (n : nat) : (string * string) * nat :=
  (("token" +:+ pretty n, "Bearer"), S n).


(** Tokens that do not expire. *)
Definition never_expired (token : string) (n : nat) : bool := false.

(** Credentials given as a file. *)
Definition file_credentials : Credentials :=
  {| PATH_TO_CREDENTIALS_JSON := Some "credentials.json"; BEARER_TOKEN := None |}.

(** The command line of a dump with tokens. *)
Definition demo_args_tokens : Args :=
  mkArgs "v1" "host" PLAIN_TEXT "people" "out.csv" (Some "tokens.csv")
         5 2 true (Some "email") "error_log.txt".

(** The same without [--output_token_csv]. *)
Definition demo_args_no_token_path : Args :=
  mkArgs "v1" "host" PLAIN_TEXT "people" "out.csv" None
         5 2 true (Some "email") "error_log.txt".

Definition tokens_url (ids : string) : string :=
  "https://host/v1/vaults/v1/people?tokenization=true" +:+ ids.

Definition tokens_of (i e n : string) : record :=
  mkRecord (Some [("skyflow_id", JStr i); ("email", JStr e); ("name", JStr n)]).

(** Every page answers, and so does every batch of identifiers. *)
Definition healthy_tokens : script :=
  healthy ++
  [(tokens_url "&skyflow_ids=id1&skyflow_ids=id2",
    [ok [tokens_of "id1" "t-a" "t-Ann"; tokens_of "id2" "t-b" "t-Bob"]]);
   (tokens_url "&skyflow_ids=id3&skyflow_ids=id4",
    [ok [tokens_of "id3" "t-c" "t-Cy"; tokens_of "id4" "t-d" "t-Di"]]);
   (tokens_url "&skyflow_ids=id5", [ok [tokens_of "id5" "t-e" "t-Ed"]])].

(** The pages of the healthy run. *)
Definition healthy_page (o : Z) : list record :=
  if decide (o = 0) then [p1; p2]
  else if decide (o = 2) then [p3; p4]
  else if decide (o = 4) then [p5] else [].

(** The count query is answered with no record. *)
Definition countless : script :=
  [("https://host/v1/vaults/v1/query", [ok []])].

(** The page at offset 0 is answered with 204 and no body. *)
Definition no_content : script :=
  [(page_url "0", [Resp (mkResponse 204 "No Content" "" None)])].

(** The page at offset 0 answers once (to the probe) and is lost afterwards. *)
Definition relapsing : script :=
  [("https://host/v1/vaults/v1/query", [count_is 5]);
   (page_url "0", [ok [p1; p2]; unavailable]);
   (page_url "2", [ok [p3; p4]]);
   (page_url "4", [ok [p5]])].

(** The same command line with skyflow_id itself as the unique column. *)
Definition demo_args_sid : Args :=
  mkArgs "v1" "host" PLAIN_TEXT "people" "out.csv" (Some "tokens.csv")
         5 2 false (Some "skyflow_id") "error_log.txt".
(** * The script *)

Section Run.

(** The remote service and the command line. *)
Context {W : Type}.
Variable http : Request → W → Outcome * W.
Variable args : Args.

Local Abbreviation State := (State W).

Definition send (req : Request) (s : State) : Outcome * State :=
  let '(o, w) := http req (net s) in
  (o, mkState w (http_log s ++ [req]) (slept s) (error_log s) (stdout s)
        (temp_output s) (output_csv s) (temp_token s) (output_token_csv s)).

Definition sleep (d : Z) (s : State) : State :=
  mkState (net s) (http_log s) (slept s ++ [d]) (error_log s) (stdout s)
    (temp_output s) (output_csv s) (temp_token s) (output_token_csv s).

(** [log_error]: one line appended to the error log. *)
Definition log_error (message : string) (s : State) : State :=
  mkState (net s) (http_log s) (slept s) (error_log s ++ [message]) (stdout s)
    (temp_output s) (output_csv s) (temp_token s) (output_token_csv s).

Definition print (message : string) (s : State) : State :=
  mkState (net s) (http_log s) (slept s) (error_log s) (stdout s ++ [message])
    (temp_output s) (output_csv s) (temp_token s) (output_token_csv s).

Definition set_temp_output (f : option table) (s : State) : State :=
  mkState (net s) (http_log s) (slept s) (error_log s) (stdout s)
    f (output_csv s) (temp_token s) (output_token_csv s).

Definition set_output_csv (f : option table) (s : State) : State :=
  mkState (net s) (http_log s) (slept s) (error_log s) (stdout s)
    (temp_output s) f (temp_token s) (output_token_csv s).

Definition set_temp_token (f : option table) (s : State) : State :=
  mkState (net s) (http_log s) (slept s) (error_log s) (stdout s)
    (temp_output s) (output_csv s) f (output_token_csv s).

Definition set_output_token_csv (f : option table) (s : State) : State :=
  mkState (net s) (http_log s) (slept s) (error_log s) (stdout s)
    (temp_output s) (output_csv s) (temp_token s) f.

(** [open(path, 'a')] then writes: the file is created when missing. *)
Definition append_rows (rows : table) (f : option table) : option table :=
  Some (default [] f ++ rows).

(** ** make_api_call *)

(** [response.raise_for_status()]: an [HTTPError] (a [RequestException]) for
    a status in 400..599, with the message of the requests library. *)
Definition raise_for_status (req : Request) (r : Response) : string + Response :=
  if decide (400 ≤ status_code r < 500) then
    inl (pretty (status_code r) +:+ " Client Error: " +:+ reason r
           +:+ " for url: " +:+ url req)
  else if decide (500 ≤ status_code r < 600) then
    inl (pretty (status_code r) +:+ " Server Error: " +:+ reason r
           +:+ " for url: " +:+ url req)
  else inr r.

(** The body of the [try]: the request, then [raise_for_status]. *)
Definition attempt_result (req : Request) (o : Outcome) : string + Response :=
  match o with
  | ConnErr e => inl e
  | Resp r => raise_for_status req r
  end.

(** What an attempt made in the remote state [w] comes to. *)
Definition first_try (req : Request) (w : W) : string + Response :=
  attempt_result req (http req w).1.

(** The [for attempt in range(retries)] loop.  When the range is exhausted
    the function falls off its end and returns [None]. *)
Fixpoint attempts (retries : Z) (rng : list Z) (req : Request) (s : State)
  : option Response * State :=
  match rng with
  | [] => (None, s)
  | attempt :: rng' =>
      let '(o, s1) := send req s in
      match attempt_result req o with
      | inr response => (Some response, s1)
      | inl e =>
          if decide (attempt < retries - 1) then
            attempts retries rng' req (sleep (2 ^ attempt) s1)
          else
            (None, log_error ("API call failed after " +:+ pretty retries
                                +:+ " attempts: " +:+ e) s1)
      end
  end.

Definition make_api_call (req : Request) (s : State) : option Response * State :=
  let retries := 3 in
  attempts retries (seqZ 0 retries) req s.

(** ** The csv module *)

(** [str(value)] as [csv.writer] renders a cell ([None] is written empty). *)
Definition csv_cell (v : jvalue) : string :=
  match v with
  | JStr s => s
  | JInt z => pretty z
  | JNull => ""
  end.

(** [str(value)] inside an f-string. *)
Definition py_str (v : jvalue) : string :=
  match v with
  | JStr s => s
  | JInt z => pretty z
  | JNull => "None"
  end.

(** [repr] of a list of strings, as an f-string prints it. *)
Definition repr_list (l : list string) : string :=
  "[" +:+ String.concat ", " (map py_repr l) +:+ "]".

(** [csv.DictWriter(f, fieldnames).writerow(rowdict)], with the defaults
    [restval=''] and [extrasaction='raise']: a key outside [fieldnames] raises
    [ValueError] (the library's message goes on with the list of the keys);
    otherwise one cell per field name. *)
Definition dict_to_list (fieldnames : list string) (rowdict : gmap string string)
  : exn + row :=
  if decide (map_Forall (λ k _, k ∈ fieldnames) rowdict) then
    inr (map (λ key, default "" (rowdict !! key)) fieldnames)
  else inl (ValueError "dict contains fields not in fieldnames").

(** [csv.DictReader(f)]: the first row names the columns, every later
    non-empty row becomes a dictionary.  Every table read by the script was
    written through a [DictWriter] with the same field names, so the rows
    are as long as the header (see [rows_wf]); the [restkey]/[restval] padding
    of the library for other rows is not modelled. *)
Definition dict_reader (t : table) : list (gmap string string) :=
  match t with
  | [] => []
  | header :: rows =>
      map (λ cells, py_dict (zip header cells))
          (filter (λ cells, cells ≠ []) rows)
  end.

(** [l[i:j]] on a Python list. *)
Definition clip (n i : Z) : Z :=
  if decide (i < 0) then Z.max (i + n) 0 else Z.min i n.

Definition py_slice {A} (l : list A) (i j : Z) : list A :=
  let n := Z.of_nat (length l) in
  take (Z.to_nat (clip n j - clip n i)) (drop (Z.to_nat (clip n i)) l).

(** ** process_chunk *)

Definition table_url : string :=
  "https://" +:+ VAULT_URL args +:+ "/v1/vaults/" +:+ VAULT_ID args
    +:+ "/" +:+ TABLE_NAME args.

Definition scan_url (offset : Z) : string :=
  table_url +:+ "?redaction=" +:+ redaction_str (REDACTION_LEVEL args)
    +:+ "&offset=" +:+ pretty offset +:+ "&order_by=ASCENDING".

(** [response and response.status_code == 200]: a response that passed
    [raise_for_status] is truthy. *)
Definition ok200 (response : option Response) : option Response :=
  match response with
  | Some r => if decide (status_code r = 200) then Some r else None
  | None => None
  end.

(** [response.text if response else 'No response'] *)
Definition text_of (response : option Response) : string :=
  match response with
  | Some r => text r
  | None => "No response"
  end.

(** The [for record in records] loop of the scan path: the rows written
    before an exception stay in the file, which the [with] closes. *)
Fixpoint write_scan_rows (fieldnames : list string) (recs : list record)
  : table * option exn :=
  match recs with
  | [] => ([], None)
  | rec :: recs' =>
      match fields rec with
      | None => ([], Some (KeyError "fields"))
      | Some flds =>
          match dict_to_list fieldnames (py_dict (prod_map id csv_cell <$> flds)) with
          | inl e => ([], Some e)
          | inr cells =>
              let '(written, e) := write_scan_rows fieldnames recs' in
              (cells :: written, e)
          end
      end
  end.

Definition process_chunk (fieldnames : list string) (offset : Z) (s : State)
  : job_result * State :=
  let api_url := scan_url offset in
  let '(response, s1) := make_api_call (mkRequest GET api_url None) s in
  match ok200 response with
  | Some r =>
      match json r with
      | None => (inl JSONDecodeError, s1)
      | Some response_data =>
          let recs := default [] (records response_data) in
          let '(written, e) := write_scan_rows fieldnames recs in
          let s2 := set_temp_output (append_rows written (temp_output s1)) s1 in
          match e with
          | Some e => (inl e, s2)
          | None => (inr (Z.of_nat (length recs)), s2)
          end
      end
  | None =>
      let error_message :=
        "Error occurred at offset " +:+ pretty offset +:+ ": " +:+ text_of response in
      (inr 0, print error_message (log_error error_message s1))
  end.

(** ** process_token_chunk *)

Definition token_url (skyflow_ids : list string) : string :=
  foldl (λ api_url skyflow_id, api_url +:+ "&skyflow_ids=" +:+ skyflow_id)
        (table_url +:+ "?tokenization=true") skyflow_ids.

(** [{field: fields.get(field, '') for field in fieldnames}] *)
Definition token_row (fieldnames : list string) (flds : list (string * jvalue))
  : gmap string string :=
  py_dict (map (λ field, (field, default "" (csv_cell <$> (py_dict flds !! field))))
               fieldnames).

Fixpoint write_token_rows (fieldnames : list string) (recs : list record)
  : table * option exn :=
  match recs with
  | [] => ([], None)
  | rec :: recs' =>
      let flds := default [] (fields rec) in
      match dict_to_list fieldnames (token_row fieldnames flds) with
      | inl e => ([], Some e)
      | inr cells =>
          let '(written, e) := write_token_rows fieldnames recs' in
          (cells :: written, e)
      end
  end.

Definition process_token_chunk (fieldnames : list string) (skyflow_ids : list string)
    (s : State) : job_result * State :=
  let api_url := token_url skyflow_ids in
  let '(response, s1) := make_api_call (mkRequest GET api_url None) s in
  match ok200 response with
  | Some r =>
      match json r with
      | None => (inl JSONDecodeError, s1)
      | Some response_data =>
          let recs := default [] (records response_data) in
          let '(written, e) := write_token_rows fieldnames recs in
          let s2 := set_temp_token (append_rows written (temp_token s1)) s1 in
          match e with
          | Some e => (inl e, s2)
          | None => (inr (Z.of_nat (length recs)), s2)
          end
      end
  | None =>
      let error_message :=
        "Error occurred for skyflow_ids " +:+ repr_list skyflow_ids +:+ ": "
          +:+ text_of response in
      (inr 0, print error_message (log_error error_message s1))
  end.

(** ** Column order *)

(** Lines 177-188: the field names of the output, from the keys of the first
    record; [None] when the unique column is given and is not a key. *)
Definition derive_fieldnames (unique_id_column : option string) (keys : list string)
  : option (list string) :=
  match truthy unique_id_column with
  | Some u =>
      if decide (u ∈ keys) then
        Some ([u; "skyflow_id"] ++ filter (λ f, f ∉ [u; "skyflow_id"]) keys)
      else None
  | None => Some (["skyflow_id"] ++ filter (λ f, f ≠ "skyflow_id") keys)
  end.

(** ** The wave scheduler *)

(** The inner [for i in range(MAX_PARALLEL_TASKS)]: the offsets submitted
    in one wave, and the cursor after it. *)
Fixpoint submit_wave (rng : list Z) (offset total : Z) : list Z * Z :=
  match rng with
  | [] => ([], offset)
  | _ :: rng' =>
      if decide (offset >= total) then ([], offset)
      else
        let '(futures, offset') :=
          submit_wave rng' (offset + ROWS_PER_CHUNK args) total in
        (offset :: futures, offset')
  end.

(** The jobs of a wave, each with the state the previous one left. *)
Fixpoint run_jobs (job : Z → State → job_result * State) (offsets : list Z)
    (s : State) : list job_result * State :=
  match offsets with
  | [] => ([], s)
  | offset :: offsets' =>
      let '(r, s1) := job offset s in
      let '(rs, s2) := run_jobs job offsets' s1 in
      (r :: rs, s2)
  end.

(** The [for future in as_completed(futures)] loop: the counts are added up;
    [future.result()] re-raises the exception of a job that raised. *)
Fixpoint collect (results : list job_result) (dumped : Z) : exn + Z :=
  match results with
  | [] => inr dumped
  | inl e :: _ => inl e
  | inr retrieved :: results' => collect results' (dumped + retrieved)
  end.

(** How a [while offset < total] loop ends. *)
Inductive LoopEnd :=
| Drained (offset dumped : Z)
| Raised (e : exn)
| OutOfFuel.

(** The [while] loop of a phase.  Besides the state it returns the waves
    submitted, in order, each with its offsets. *)
Fixpoint waves (fuel : nat) (job : Z → State → job_result * State)
    (total offset dumped : Z) (s : State) : LoopEnd * list (list Z) * State :=
  match fuel with
  | O => (OutOfFuel, [], s)
  | S fuel' =>
      if decide (offset < total) then
        let '(futures, offset') :=
          submit_wave (seqZ 0 (MAX_PARALLEL_TASKS args)) offset total in
        let '(results, s1) := run_jobs job futures s in
        match collect results dumped with
        | inl e => (Raised e, [futures], s1)
        | inr dumped' =>
            let '(r, submitted, s2) := waves fuel' job total offset' dumped' s1 in
            (r, futures :: submitted, s2)
        end
      else (Drained offset dumped, [], s)
  end.

(** ** The export pipeline: lines 137-231 *)

Definition count_request : Request :=
  mkRequest POST
    ("https://" +:+ VAULT_URL args +:+ "/v1/vaults/" +:+ VAULT_ID args +:+ "/query")
    (Some [("query", "select " +:+ count_star +:+ " from " +:+ TABLE_NAME args)]).

(** An [exit(1)] gate: the message is logged, printed, and the script ends. *)
Definition fatal {A} (error_message : string) (s : State) : (Exit + A) * State :=
  (inl (SysExit 1), print error_message (log_error error_message s)).

(** Lines 140-151: the count query and its gate, then the count is read from
    the first record of the answer. *)
Definition count_records (s : State) : (Exit + jvalue) * State :=
  let '(query_response, s1) := make_api_call count_request s in
  match ok200 query_response with
  | None =>
      fatal ("Failed to retrieve record count: " +:+ text_of query_response) s1
  | Some r =>
      match json r with
      | None => (inl (Uncaught JSONDecodeError), s1)
      | Some query_data =>
          match records query_data with
          | None => (inl (Uncaught (KeyError "records")), s1)
          | Some [] => (inl (Uncaught (IndexError "list index out of range")), s1)
          | Some (rec :: _) =>
              match fields rec with
              | None => (inl (Uncaught (KeyError "fields")), s1)
              | Some flds =>
                  match py_dict flds !! count_star with
                  | None => (inl (Uncaught (KeyError count_star)), s1)
                  | Some total_records =>
                      (inr total_records,
                       print ("Total records to retrieve: " +:+ py_str total_records) s1)
                  end
              end
          end
      end
  end.

(** Lines 153-195: the temporary file, the first page and its gates, the
    field names, the header. *)
Definition probe_schema (s : State) : (Exit + list string) * State :=
  let s0 := set_temp_output (Some [[]]) s in
  let '(initial_response, s1) :=
    make_api_call (mkRequest GET (scan_url 0) None) s0 in
  match ok200 initial_response with
  | None => fatal ("Failed to retrieve data: " +:+ text_of initial_response) s1
  | Some r =>
      match json r with
      | None => (inl (Uncaught JSONDecodeError), s1)
      | Some initial_data =>
          match records initial_data with
          | None | Some [] => fatal "No records found in initial response" s1
          | Some (rec :: _) =>
              match fields rec with
              | None => (inl (Uncaught (KeyError "fields")), s1)
              | Some flds =>
                  match derive_fieldnames (UNIQUE_ID_COLUMN args) flds.*1 with
                  | None =>
                      fatal "Unique column specified is not found. Please rerun the script without the parameter or specify the correct name of unique column." s1
                  | Some fieldnames =>
                      (inr fieldnames,
                       set_temp_output (Some [fieldnames])
                         (print ("Fieldnames for CSV: " +:+ repr_list fieldnames) s1))
                  end
              end
          end
      end
  end.

(** The rendering of a measured duration ([{...:.2f}]) is left open:
    [elapsed k] is the text printed for phase [k]. *)
Variable elapsed : nat → string.

(** Lines 218-231: the buffer, read in text mode, is copied to OUTPUT_CSV
    row by row and removed, and the two closing lines are printed. *)
Definition publish (total_records_dumped : Z) (s : State) : State :=
  let s1 := set_output_csv (Some (text_mode (default [] (temp_output s)))) s in
  let s2 := set_temp_output None s1 in
  print ("Total time taken: " +:+ elapsed 0%nat +:+ " seconds")
    (print ("Data dump completed. Total records dumped: "
              +:+ pretty total_records_dumped) s2).

(** Lines 201-216: the scan loop; the comparison with a count that is not
    a number raises. *)
Definition scan (fuel : nat) (fieldnames : list string) (total_records : jvalue)
    (s : State) : LoopEnd * list (list Z) * State :=
  match total_records with
  | JInt total => waves fuel (process_chunk fieldnames) total 0 0 s
  | _ => (Raised (TypeError "'<' not supported"), [], s)
  end.

Definition loop_exit (r : LoopEnd) : Exit :=
  match r with
  | Drained _ _ => Completed
  | Raised e => Uncaught e
  | OutOfFuel => Diverges
  end.

Definition export (fuel : nat) (s : State) : (Exit + list string) * State :=
  match count_records s with
  | (inl e, s1) => (inl e, s1)
  | (inr total_records, s1) =>
      match probe_schema s1 with
      | (inl e, s2) => (inl e, s2)
      | (inr fieldnames, s2) =>
          match scan fuel fieldnames total_records s2 with
          | (Drained _ total_records_dumped, _, s3) =>
              (inr fieldnames, publish total_records_dumped s3)
          | (r, _, s3) => (inl (loop_exit r), s3)
          end
      end
  end.

(** ** The token pipeline: lines 233-296 *)

(** Lines 238-243: the identifiers of the dump, in order, and (when a
    unique column is given) the map from identifier to its value in that
    column. *)
Fixpoint collect_ids (unique_id_column : option string)
    (rows : list (gmap string string)) (skyflow_ids : list string)
    (additional_fields : gmap string string)
  : exn + (list string * gmap string string) :=
  match rows with
  | [] => inr (skyflow_ids, additional_fields)
  | r :: rows' =>
      match r !! "skyflow_id" with
      | None => inl (KeyError "skyflow_id")
      | Some skyflow_id =>
          match truthy unique_id_column with
          | None =>
              collect_ids unique_id_column rows' (skyflow_ids ++ [skyflow_id])
                additional_fields
          | Some u =>
              match r !! u with
              | None => inl (KeyError u)
              | Some v =>
                  collect_ids unique_id_column rows' (skyflow_ids ++ [skyflow_id])
                    (<[skyflow_id := v]> additional_fields)
              end
          end
      end
  end.

(** Lines 277-280, one row of the token buffer. *)
Definition merge_row (unique_id_column : option string)
    (additional_fields : gmap string string) (r : gmap string string)
  : exn + gmap string string :=
  match truthy unique_id_column with
  | None => inr r
  | Some u =>
      match r !! "skyflow_id" with
      | None => inl (KeyError "skyflow_id")
      | Some skyflow_id =>
          match additional_fields !! skyflow_id with
          | Some v => inr (<[u := v]> r)
          | None => inr r
          end
      end
  end.

Fixpoint merge_rows (unique_id_column : option string)
    (additional_fields : gmap string string) (rows : list (gmap string string))
  : exn + list (gmap string string) :=
  match rows with
  | [] => inr []
  | r :: rows' =>
      match merge_row unique_id_column additional_fields r with
      | inl e => inl e
      | inr r' =>
          match merge_rows unique_id_column additional_fields rows' with
          | inl e => inl e
          | inr merged_data => inr (r' :: merged_data)
          end
      end
  end.

(** Lines 286-287: the rows written before an exception stay in the file. *)
Fixpoint write_rows (fieldnames : list string) (rows : list (gmap string string))
  : table * option exn :=
  match rows with
  | [] => ([], None)
  | r :: rows' =>
      match dict_to_list fieldnames r with
      | inl e => ([], Some e)
      | inr cells =>
          let '(written, e) := write_rows fieldnames rows' in
          (cells :: written, e)
      end
  end.

(** Lines 273-287 on tables: the token buffer is read back, joined with the
    map, and the rows of the token output are produced. *)
Definition token_publish (unique_id_column : option string)
    (fieldnames : list string) (additional_fields : gmap string string)
    (temp_token_rows : table) : exn + (table * option exn) :=
  match merge_rows unique_id_column additional_fields (dict_reader temp_token_rows) with
  | inl e => inl e
  | inr merged_data =>
      let '(written, e) := write_rows fieldnames merged_data in
      inr (fieldnames :: written, e)
  end.

(** The job of the token loop at a cursor: lines 264-265. *)
Definition token_job (fieldnames : list string) (skyflow_ids : list string)
    (offset : Z) : State → job_result * State :=
  let total_ids := Z.of_nat (length skyflow_ids) in
  let end_index := Z.min (offset + ROWS_PER_CHUNK args) total_ids in
  process_token_chunk fieldnames (py_slice skyflow_ids offset end_index).

(** The token pass.  The dump (line 238) and the token buffer (line 275) are
    read in text mode; the token file is opened (line 283) once the buffer
    has been read and joined. *)
Definition tokenize (fuel : nat) (fieldnames : list string) (s : State)
  : Exit * State :=
  match collect_ids (UNIQUE_ID_COLUMN args)
          (dict_reader (text_mode (default [] (output_csv s)))) [] ∅ with
  | inl e => (Uncaught e, s)
  | inr (skyflow_ids, additional_fields) =>
      let total_ids := Z.of_nat (length skyflow_ids) in
      let s1 := print ("Total skyflow_ids to tokenize: " +:+ pretty total_ids) s in
      let s2 := set_temp_token (Some [fieldnames]) s1 in
      match waves fuel (token_job fieldnames skyflow_ids) total_ids 0 0 s2 with
      | (Drained _ total_tokens_dumped, _, s3) =>
          match token_publish (UNIQUE_ID_COLUMN args) fieldnames additional_fields
                  (text_mode (default [] (temp_token s3))) with
          | inl e => (Uncaught e, s3)
          | inr (published, e) =>
              match OUTPUT_TOKEN_CSV args with
              | None => (Uncaught (TypeError "expected str, not NoneType"), s3)
              | Some _ =>
                  let s4 := set_output_token_csv (Some published) s3 in
                  match e with
                  | Some e => (Uncaught e, s4)
                  | None =>
                      (Completed,
                       print ("Total time taken for tokenization: "
                                +:+ elapsed 1%nat +:+ " seconds")
                         (print ("Tokenization completed. Total tokens dumped: "
                                   +:+ pretty total_tokens_dumped)
                            (set_temp_token None s4)))
                  end
              end
          end
      | (r, _, s3) => (loop_exit r, s3)
      end
  end.

(** The script from line 137 on (the bearer token is obtained before, by
    the token provider, and travels in headers that the model leaves out). *)
Definition main (fuel : nat) (s : State) : Exit * State :=
  match export fuel s with
  | (inl e, s1) => (e, s1)
  | (inr fieldnames, s1) =>
      if DUMP_TOKENS_ENABLED args then tokenize fuel fieldnames s1
      else (Completed, s1)
  end.

(** ** The gates, as the answers of the service decide them *)

(** The request for the first page, made once the temporary file exists. *)
Definition probe (s : State) : option Response * State :=
  make_api_call (mkRequest GET (scan_url 0) None) (set_temp_output (Some [[]]) s).

(** [gate_failure s msg]: started in the state [s], the run meets a gate that
    fails, with the message [msg]: the count query fails; or the first page
    fails, or has no record, or lacks the unique column that was asked for. *)
Inductive gate_failure (s : State) : string → Prop :=
| count_gate :
    ok200 (make_api_call count_request s).1 = None →
    gate_failure s
      ("Failed to retrieve record count: "
         +:+ text_of (make_api_call count_request s).1)
| probe_gate total_records s1 :
    count_records s = (inr total_records, s1) →
    ok200 (probe s1).1 = None →
    gate_failure s ("Failed to retrieve data: " +:+ text_of (probe s1).1)
| empty_gate total_records s1 r initial_data :
    count_records s = (inr total_records, s1) →
    ok200 (probe s1).1 = Some r →
    json r = Some initial_data →
    records initial_data = None ∨ records initial_data = Some [] →
    gate_failure s "No records found in initial response"
| unique_gate total_records s1 r initial_data rec rest flds u :
    count_records s = (inr total_records, s1) →
    ok200 (probe s1).1 = Some r →
    json r = Some initial_data →
    records initial_data = Some (rec :: rest) →
    fields rec = Some flds →
    truthy (UNIQUE_ID_COLUMN args) = Some u →
    u ∉ flds.*1 →
    gate_failure s
      "Unique column specified is not found. Please rerun the script without the parameter or specify the correct name of unique column.".

(** The messages of the failed attempts that a call with [n] attempts makes
    from the remote state [w]: it stops at the first attempt that succeeds. *)
Fixpoint failed_attempts (n : nat) (req : Request) (w : W) : list string :=
  match n with
  | O => []
  | S n' =>
      match first_try req w with
      | inr _ => []
      | inl e => e :: failed_attempts n' req (http req w).2
      end
  end.

(** The states in which the jobs of a run start, each job with the state
    that the job before it left. *)
Fixpoint starts (job : Z → State → job_result * State) (offsets : list Z)
    (s : State) : list (Z * State) :=
  match offsets with
  | [] => []
  | offset :: offsets' => (offset, s) :: starts job offsets' (job offset s).2
  end.

(** In the state [s] the fetch of the chunk at [offset] is given up: the
    requester returns nothing, or an answer whose status is not 200. *)
Definition chunk_lost (offset : Z) (s : State) : Prop :=
  ok200 (make_api_call (mkRequest GET (scan_url offset) None) s).1 = None.

(** In the state [s] the fetch of the chunk at [offset] is answered with the
    status 200 and the records [recs]. *)
Definition chunk_answered (offset : Z) (recs : list record) (s : State) : Prop :=
  ∃ r, (make_api_call (mkRequest GET (scan_url offset) None) s).1 = Some r ∧
       status_code r = 200 ∧ json r = Some (mkBody (Some recs)).

(** A record whose fields are all among the field names. *)
Definition known (fieldnames : list string) (rec : record) : Prop :=
  ∃ flds, fields rec = Some flds ∧ ∀ k, k ∈ flds.*1 → k ∈ fieldnames.

(** The row of a record under the field names: for each field name the
    value the record has for it, and the empty cell when it has none. *)
Definition row_of (fieldnames : list string) (rec : record) : row :=
  map (λ f, default "" (csv_cell <$> (py_dict (default [] (fields rec)) !! f)))
      fieldnames.

(** [s'] comes after [s]: the error log and the output have only grown. *)
Definition grows (s s' : State) : Prop :=
  error_log s `prefix_of` error_log s' ∧ stdout s `prefix_of` stdout s'.

(** * Properties *)

(** ** The requester *)

Lemma send_spec req (s : State) :
  send req s =
  ((http req (net s)).1,
   mkState (http req (net s)).2 (http_log s ++ [req]) (slept s) (error_log s)
     (stdout s) (temp_output s) (output_csv s) (temp_token s)
     (output_token_csv s)).
Proof. unfold send. by destruct (http req (net s)). Qed.

(** The three attempts unrolled. *)
Lemma make_api_call_unfold req (s : State) :
  let w1 := (http req (net s)).2 in
  let w2 := (http req w1).2 in
  let w3 := (http req w2).2 in
  let st w n zs es :=
    mkState w (http_log s ++ n) (slept s ++ zs) (error_log s ++ es) (stdout s)
      (temp_output s) (output_csv s) (temp_token s) (output_token_csv s) in
  make_api_call req s =
  match first_try req (net s) with
  | inr r => (Some r, st w1 [req] [] [])
  | inl _ =>
      match first_try req w1 with
      | inr r => (Some r, st w2 [req; req] [1] [])
      | inl _ =>
          match first_try req w2 with
          | inr r => (Some r, st w3 [req; req; req] [1; 2] [])
          | inl e =>
              (None, st w3 [req; req; req] [1; 2]
                       ["API call failed after 3 attempts: " +:+ e])
          end
      end
  end.
Proof.
  unfold make_api_call, first_try.
  change (seqZ 0 3) with [0; 1; 2].
  change (pretty 3) with "3".
  cbn [attempts]. rewrite !send_spec.
  unfold sleep, log_error.
  cbn [fst snd net http_log slept error_log stdout temp_output
    output_csv temp_token output_token_csv].
  rewrite <- !app_assoc. cbn [app].
  change (2 ^ 0) with 1. change (2 ^ 1) with 2.
  destruct (decide (0 < 3 - 1)); [|lia].
  destruct (decide (1 < 3 - 1)); [|lia].
  destruct (decide (2 < 3 - 1)); [lia|].
  rewrite !app_nil_r.
  destruct (attempt_result req (http req (net s)).1) as [e1|r1]; [|done].
  destruct (attempt_result req (http req (http req (net s)).2).1)
    as [e2|r2]; [|done].
  by destruct (attempt_result req (http req (http req (http req (net s)).2).2).1).
Qed.

(** C4: a request whose three attempts all fail is sent exactly three
    times, the requester sleeps 1 then 2 time units between the attempts,
    appends one entry with the last error to the error log, and returns
    [None]; nothing else changes and no exception leaves the function. *)
Theorem make_api_call_exhausted req (s : State) e1 e2 e3 :
  first_try req (net s) = inl e1 →
  first_try req (http req (net s)).2 = inl e2 →
  first_try req (http req (http req (net s)).2).2 = inl e3 →
  2 ^ 0 = 1 ∧ 2 ^ 1 = 2 ∧
  make_api_call req s =
    (None,
     mkState (http req (http req (http req (net s)).2).2).2
       (http_log s ++ [req; req; req])
       (slept s ++ [2 ^ 0; 2 ^ 1])
       (error_log s ++ ["API call failed after 3 attempts: " +:+ e3])
       (stdout s) (temp_output s) (output_csv s) (temp_token s)
       (output_token_csv s)).
Proof.
  intros H1 H2 H3. split; [done|]. split; [done|].
  rewrite make_api_call_unfold. cbv zeta. by rewrite H1, H2, H3.
Qed.

(** What a call leaves in the error log, in the other fields, and what it
    returns, from the failures of its attempts. *)
Lemma make_api_call_cases req (s : State) :
  ∃ s', (make_api_call req s).2 = s' ∧
    stdout s' = stdout s ∧ temp_output s' = temp_output s ∧
    output_csv s' = output_csv s ∧ temp_token s' = temp_token s ∧
    output_token_csv s' = output_token_csv s ∧
    match failed_attempts 3 req (net s) with
    | [_; _; e3] =>
        (make_api_call req s).1 = None ∧
        error_log s' = error_log s ++ ["API call failed after 3 attempts: " +:+ e3]
    | _ => is_Some (make_api_call req s).1 ∧ error_log s' = error_log s
    end.
Proof.
  eexists; split; [done|]. rewrite make_api_call_unfold. cbv zeta.
  cbn [failed_attempts].
  destruct (first_try req (net s)); cbn; [|by rewrite app_nil_r; eauto 10].
  destruct (first_try req (http req (net s)).2); cbn;
    [|by rewrite app_nil_r; eauto 10].
  destruct (first_try req (http req (http req (net s)).2).2); cbn;
    [|by rewrite app_nil_r; eauto 10].
  eauto 10.
Qed.

Lemma failed_attempts_length n req (w : W) :
  (length (failed_attempts n req w) ≤ n)%nat.
Proof.
  revert w. induction n as [|n IH]; intros w; cbn; [lia|].
  destruct (first_try req w); cbn; [|lia]. specialize (IH (http req w).2). lia.
Qed.

(** C7 (amended): only a call that is given up writes to the error log. When
    the three attempts fail, one entry with the last error is appended; when
    an attempt succeeds, the failed attempts before it, which were retried,
    leave no entry, and neither does the success. *)
Theorem make_api_call_logs_final_failure_only req (s : State) :
  let failures := failed_attempts 3 req (net s) in
  let s' := (make_api_call req s).2 in
  (length failures ≤ 3)%nat ∧
  ((length failures < 3)%nat →
     is_Some (make_api_call req s).1 ∧ error_log s' = error_log s) ∧
  (length failures = 3%nat →
     (make_api_call req s).1 = None ∧
     ∃ e, last failures = Some e ∧
       error_log s' = error_log s ++ ["API call failed after 3 attempts: " +:+ e]).
Proof.
  cbv zeta. destruct (make_api_call_cases req s) as (s' & <- & _ & _ & _ & _ & _ & H).
  pose proof (failed_attempts_length 3 req (net s)) as Hlen.
  split; [done|].
  destruct (failed_attempts 3 req (net s)) as [|a [|b [|c [|d l]]]];
    cbn [length] in *; try lia; try (split; [done | intros; lia]).
  split; [intros; lia|]. intros _. destruct H as [-> ->]. eauto.
Qed.

(** A call touches the remote state, the request log, the sleeps and the
    error log only, and what it adds to the error log is not chunk-level;
    it adds nothing when it returns a response. *)
Lemma make_api_call_effects req (s : State) :
  let r := (make_api_call req s).1 in
  let s1 := (make_api_call req s).2 in
  stdout s1 = stdout s ∧ temp_output s1 = temp_output s ∧
  output_csv s1 = output_csv s ∧ temp_token s1 = temp_token s ∧
  output_token_csv s1 = output_token_csv s ∧
  ∃ new, error_log s1 = error_log s ++ new ∧
    filter chunk_level new = [] ∧ (is_Some r → new = []).
Proof.
  cbv zeta. rewrite make_api_call_unfold. cbv zeta.
  destruct (first_try req (net s)); cbn;
    [|by repeat split; exists []; rewrite app_nil_r].
  destruct (first_try req (http req (net s)).2); cbn;
    [|by repeat split; exists []; rewrite app_nil_r].
  destruct (first_try req (http req (http req (net s)).2).2); cbn;
    [|by repeat split; exists []; rewrite app_nil_r].
  repeat split. eexists. split; [done|]. split; [done|]. by intros [? ?].
Qed.

(** ** The chunk fetchers *)

Lemma process_chunk_failed fieldnames offset (s : State) :
  ok200 (make_api_call (mkRequest GET (scan_url offset) None) s).1 = None →
  let s1 := (make_api_call (mkRequest GET (scan_url offset) None) s).2 in
  let error_message :=
    "Error occurred at offset " +:+ pretty offset +:+ ": "
      +:+ text_of (make_api_call (mkRequest GET (scan_url offset) None) s).1 in
  process_chunk fieldnames offset s =
  (inr 0, print error_message (log_error error_message s1)).
Proof.
  intros H. unfold process_chunk.
  destruct (make_api_call _ s) as [r s1]. cbn in *. by rewrite H.
Qed.

Lemma process_chunk_fetched fieldnames offset (s : State) r recs written :
  (make_api_call (mkRequest GET (scan_url offset) None) s).1 = Some r →
  status_code r = 200 →
  json r = Some (mkBody (Some recs)) →
  write_scan_rows fieldnames recs = (written, None) →
  let s1 := (make_api_call (mkRequest GET (scan_url offset) None) s).2 in
  process_chunk fieldnames offset s =
  (inr (Z.of_nat (length recs)),
   set_temp_output (append_rows written (temp_output s1)) s1).
Proof.
  intros Hr H200 Hj Hw. unfold process_chunk.
  destruct (make_api_call _ s) as [r' s1]. cbn in *. subst r'. cbn.
  rewrite decide_True by done. rewrite Hj. cbn. by rewrite Hw.
Qed.

(** *** Dictionaries and rows *)

Lemma foldl_insert_is_Some {V} (pairs : list (string * V)) (m : gmap string V) k :
  is_Some (m !! k) ∨ k ∈ pairs.*1 →
  is_Some (foldl (λ m kv, <[kv.1 := kv.2]> m) m pairs !! k).
Proof.
  revert m. induction pairs as [|[k' v] pairs IH]; intros m; cbn [foldl fmap list_fmap].
  - intros [H|H%elem_of_nil]; done.
  - intros H. apply IH. destruct (decide (k' = k)) as [->|Hne].
    + left. cbn. rewrite lookup_insert_eq. eauto.
    + destruct H as [H|H]; [left; cbn; by rewrite lookup_insert_ne|].
      apply elem_of_cons in H as [->|H]; [done|by right].
Qed.

Lemma py_dict_is_Some {V} (pairs : list (string * V)) k :
  k ∈ pairs.*1 → is_Some (py_dict pairs !! k).
Proof. intros H. apply foldl_insert_is_Some. by right. Qed.

Lemma foldl_insert_tabulate {V} (g : string → V) (l : list string)
    (m : gmap string V) k :
  foldl (λ m kv, <[kv.1 := kv.2]> m) m ((λ f, (f, g f)) <$> l) !! k =
  if decide (k ∈ l) then Some (g k) else m !! k.
Proof.
  revert m. induction l as [|a l IH]; intros m; cbn [foldl fmap list_fmap].
  - by rewrite decide_False by apply not_elem_of_nil.
  - rewrite IH. cbn. destruct (decide (k ∈ l)) as [Hin|Hin].
    + by rewrite decide_True by (by right).
    + destruct (decide (a = k)) as [->|Hne].
      * rewrite lookup_insert_eq. by rewrite decide_True by left.
      * rewrite lookup_insert_ne by done. rewrite decide_False; [done|].
        intros [?|?]%elem_of_cons; done.
Qed.

(** A dictionary with one entry per field name. *)
Lemma py_dict_tabulate {V} (g : string → V) (l : list string) k :
  py_dict ((λ f, (f, g f)) <$> l) !! k = if decide (k ∈ l) then Some (g k) else None.
Proof. unfold py_dict. by rewrite foldl_insert_tabulate, lookup_empty. Qed.

(** A key outside the field names makes the writer raise. *)
Lemma dict_to_list_extra fieldnames (rowdict : gmap string string) k :
  is_Some (rowdict !! k) → k ∉ fieldnames →
  dict_to_list fieldnames rowdict =
  inl (ValueError "dict contains fields not in fieldnames").
Proof.
  intros [v Hv] Hk. unfold dict_to_list. rewrite decide_False; [done|].
  intros H. by specialize (H k v Hv).
Qed.

(** A dictionary with exactly the field names as keys is written as is. *)
Lemma dict_to_list_tabulate fieldnames (g : string → string) :
  dict_to_list fieldnames (py_dict ((λ f, (f, g f)) <$> fieldnames)) =
  inr (g <$> fieldnames).
Proof.
  unfold dict_to_list. rewrite decide_True.
  - f_equal. apply list_fmap_ext. intros i f Hf. rewrite py_dict_tabulate.
    rewrite decide_True; [done|]. by eapply list_elem_of_lookup_2.
  - intros k v. rewrite py_dict_tabulate. by case_decide.
Qed.

(** ** The scheduler *)

Section Scheduler.

Let cs := ROWS_PER_CHUNK args.
Let mt := MAX_PARALLEL_TASKS args.

Hypothesis cs_pos : 0 < cs.
Hypothesis mt_ok : args_ok args.

Lemma chunks_left_done total offset :
  offset >= total → chunks_left cs total offset = 0%nat.
Proof.
  intros H. unfold chunks_left.
  assert ((total - offset + cs - 1) `div` cs ≤ 0); [|lia].
  assert ((total - offset + cs - 1) `div` cs < 1); [|lia].
  apply Z.div_lt_upper_bound; lia.
Qed.

Lemma chunks_left_step total offset :
  offset < total →
  chunks_left cs total offset = S (chunks_left cs total (offset + cs)).
Proof.
  intros H. unfold chunks_left.
  replace (total - offset + cs - 1) with ((total - (offset + cs) + cs - 1) + 1 * cs) by lia.
  rewrite Z.div_add by lia.
  assert (0 ≤ (total - (offset + cs) + cs - 1) `div` cs); [|lia].
  apply Z.div_pos; lia.
Qed.

Lemma chunks_left_pos total offset :
  offset < total → (0 < chunks_left cs total offset)%nat.
Proof. intros H. rewrite chunks_left_step by done. lia. Qed.

Lemma chunks_left_reach total offset :
  total ≤ offset + Z.of_nat (chunks_left cs total offset) * cs.
Proof.
  unfold chunks_left.
  destruct (decide (offset < total)) as [H|H].
  - rewrite Z2Nat.id by (apply Z.div_pos; lia).
    pose proof (Z.mul_succ_div_gt (total - offset + cs - 1) cs cs_pos). lia.
  - assert (0 ≤ Z.of_nat (Z.to_nat ((total - offset + cs - 1) `div` cs)) * cs) by nia. lia.
Qed.

Lemma progression_app start step m n :
  progression start step (m + n) =
  progression start step m ++ progression (start + Z.of_nat m * step) step n.
Proof.
  revert start. induction m as [|m IH]; intros start; cbn [progression Nat.add app].
  - f_equal. lia.
  - rewrite IH. do 3 f_equal. lia.
Qed.

Lemma progression_length start step n : length (progression start step n) = n.
Proof. revert start. induction n; intros; cbn; auto. Qed.

Lemma progression_lookup start step n (k : nat) o :
  progression start step n !! k = Some o ↔ (k < n)%nat ∧ o = start + Z.of_nat k * step.
Proof.
  revert start k. induction n as [|n IH]; intros start k; cbn [progression].
  - rewrite lookup_nil. split; [done|lia].
  - destruct k as [|k]; cbn.
    + split; [intros [= <-]; split; lia | intros [_ ->]; f_equal; lia].
    + rewrite IH. split; intros [? ->]; split; lia.
Qed.

Lemma progression_NoDup start n : NoDup (progression start cs n).
Proof.
  apply NoDup_alt. intros i j o Hi Hj.
  apply progression_lookup in Hi as [_ ->]. apply progression_lookup in Hj as [_ E].
  nia.
Qed.

(** One wave: as many chunks as the pool allows, or as are left. *)
Lemma submit_wave_spec rng offset total :
  let m := (length rng `min` chunks_left cs total offset)%nat in
  submit_wave rng offset total = (progression offset cs m, offset + Z.of_nat m * cs).
Proof.
  revert offset. induction rng as [|i rng IH]; intros offset; cbn [submit_wave].
  - cbn. f_equal. lia.
  - destruct (decide (offset >= total)) as [H|H].
    + rewrite chunks_left_done by done. rewrite Nat.min_0_r. cbn. f_equal. lia.
    + rewrite (chunks_left_step total offset) by lia. fold cs. rewrite IH.
      cbn [length]. rewrite <- Nat.succ_min_distr. cbn [progression].
      f_equal. lia.
Qed.

Lemma chunks_left_after total offset (m : nat) :
  (m ≤ chunks_left cs total offset)%nat →
  chunks_left cs total (offset + Z.of_nat m * cs) = (chunks_left cs total offset - m)%nat.
Proof.
  revert offset. induction m as [|m IH]; intros offset Hm.
  - replace (offset + Z.of_nat 0 * cs) with offset by lia. lia.
  - destruct (decide (offset < total)) as [H|H].
    + rewrite (chunks_left_step total offset) in * by done.
      replace (offset + Z.of_nat (S m) * cs) with ((offset + cs) + Z.of_nat m * cs) by lia.
      rewrite IH by lia. lia.
    + rewrite (chunks_left_done total offset) in Hm by lia. lia.
Qed.

Lemma progression_split total offset (m : nat) :
  (m ≤ chunks_left cs total offset)%nat →
  progression offset cs (chunks_left cs total offset) =
  progression offset cs m ++
  progression (offset + Z.of_nat m * cs) cs (chunks_left cs total offset - m).
Proof. intros H. rewrite <- progression_app. f_equal. lia. Qed.

Lemma run_jobs_app (job : Z → State → job_result * State) l1 l2 s :
  run_jobs job (l1 ++ l2) s =
  ((run_jobs job l1 s).1 ++ (run_jobs job l2 (run_jobs job l1 s).2).1,
   (run_jobs job l2 (run_jobs job l1 s).2).2).
Proof.
  revert s. induction l1 as [|o l1 IH]; intros s; cbn [app run_jobs fst snd].
  - by destruct (run_jobs job l2 s).
  - destruct (job o s) as [r s1]. rewrite IH.
    destruct (run_jobs job l1 s1) as [rs s2]; cbn.
    by destruct (run_jobs job l2 s2).
Qed.

Lemma run_jobs_length (job : Z → State → job_result * State) l s :
  length (run_jobs job l s).1 = length l.
Proof.
  revert s. induction l as [|o l IH]; intros s; cbn; [done|].
  destruct (job o s) as [r s1]. specialize (IH s1).
  destruct (run_jobs job l s1). cbn in *. lia.
Qed.

(** A result of a wave is the result of one of its jobs. *)
Lemma run_jobs_result (job : Z → State → job_result * State) l s r :
  r ∈ (run_jobs job l s).1 → ∃ o s1, o ∈ l ∧ (job o s1).1 = r.
Proof.
  revert s. induction l as [|o l IH]; intros s; cbn; [by intros ?%elem_of_nil|].
  destruct (job o s) as [r1 s1] eqn:E. specialize (IH s1).
  destruct (run_jobs job l s1) as [rs s2]. cbn in *.
  intros [->|H]%elem_of_cons.
  - exists o, s. rewrite E. split; [left|done].
  - destruct (IH H) as (o' & s' & ? & ?). exists o', s'. split; [by right|done].
Qed.

Lemma collect_app rs1 rs2 dumped :
  collect (rs1 ++ rs2) dumped =
  match collect rs1 dumped with
  | inl e => inl e
  | inr dumped' => collect rs2 dumped'
  end.
Proof.
  revert dumped. induction rs1 as [|[e|n] rs1 IH]; intros dumped; cbn; auto.
Qed.

Lemma collect_raises rs dumped e :
  collect rs dumped = inl e → inl e ∈ rs.
Proof.
  revert dumped. induction rs as [|[e'|n] rs IH]; intros dumped; cbn.
  - done.
  - intros [= ->]. left.
  - intros H. right. eauto.
Qed.

Lemma collect_counts (counts : list Z) dumped :
  collect (inr <$> counts) dumped = inr (dumped + foldr Z.add 0 counts).
Proof.
  revert dumped. induction counts as [|n counts IH]; intros dumped; cbn.
  - f_equal. lia.
  - rewrite IH. f_equal. lia.
Qed.

(** The shape of a run of the loop, whatever the jobs do. *)
Lemma waves_schedule (job : Z → State → job_result * State) fuel total offset dumped s :
  (chunks_left cs total offset < fuel)%nat →
  let n := chunks_left cs total offset in
  let '(r, submitted, s') := waves fuel job total offset dumped s in
  Forall (λ wave, (1 ≤ length wave ≤ Z.to_nat mt)%nat) submitted ∧
  match r with
  | Drained cursor _ =>
      concat submitted = progression offset cs n ∧ cursor = offset + Z.of_nat n * cs
  | Raised e =>
      concat submitted `prefix_of` progression offset cs n ∧
      ∃ o s1, o ∈ concat submitted ∧ (job o s1).1 = inl e
  | OutOfFuel => False
  end.
Proof.
  revert offset dumped s. induction fuel as [|fuel IH]; intros offset dumped s Hf; [lia|].
  cbn [waves]. destruct (decide (offset < total)) as [Hlt|Hge].
  2: { rewrite chunks_left_done by lia. cbn. split; [constructor|]. split; [done|lia]. }
  rewrite submit_wave_spec. rewrite length_seqZ. fold mt.
  set (m := (Z.to_nat mt `min` chunks_left cs total offset)%nat).
  assert (1 ≤ m ≤ Z.to_nat mt)%nat as Hm.
  { pose proof (chunks_left_pos total offset Hlt). unfold args_ok in mt_ok.
    fold mt in mt_ok. lia. }
  assert (m ≤ chunks_left cs total offset)%nat as Hmn by lia.
  destruct (run_jobs job (progression offset cs m) s) as [results s1] eqn:Er.
  rewrite (progression_split total offset m Hmn).
  destruct (collect results dumped) as [e|dumped'] eqn:Ec.
  - split; [constructor; [by rewrite progression_length|constructor]|].
    cbn [concat]. rewrite app_nil_r. split; [by apply prefix_app_r|].
    apply collect_raises in Ec.
    replace results with (run_jobs job (progression offset cs m) s).1 in Ec
      by (by rewrite Er).
    apply run_jobs_result in Ec. done.
  - specialize (IH (offset + Z.of_nat m * cs) dumped' s1).
    rewrite chunks_left_after in IH by done.
    destruct (waves fuel job total (offset + Z.of_nat m * cs) dumped' s1) as [[r submitted] s2].
    destruct IH as [Hw Hr]; [lia|].
    split; [constructor; [by rewrite progression_length|done]|].
    cbn [concat]. destruct r as [cursor d|e|].
    + destruct Hr as [-> ->]. split; [done|lia].
    + destruct Hr as [Hp (o & s' & Ho & Hj)]. split; [by apply prefix_app|].
      exists o, s'. split; [|done]. apply elem_of_app. by right.
    + done.
Qed.

(** When no job raises, the loop is the jobs of the progression run one
    after the other. *)
Lemma waves_flat (job : Z → State → job_result * State) fuel total offset dumped s :
  (chunks_left cs total offset < fuel)%nat →
  let n := chunks_left cs total offset in
  ∀ d, collect (run_jobs job (progression offset cs n) s).1 dumped = inr d →
  ∃ submitted,
    waves fuel job total offset dumped s =
    (Drained (offset + Z.of_nat n * cs) d, submitted,
     (run_jobs job (progression offset cs n) s).2).
Proof.
  revert offset dumped s. induction fuel as [|fuel IH]; intros offset dumped s Hf; [lia|].
  cbn [waves]. cbv zeta. destruct (decide (offset < total)) as [Hlt|Hge].
  2: { rewrite chunks_left_done by lia. cbn. intros d [= <-]. eexists.
       do 3 f_equal. lia. }
  rewrite submit_wave_spec. rewrite length_seqZ. fold mt.
  set (m := (Z.to_nat mt `min` chunks_left cs total offset)%nat).
  assert (m ≤ chunks_left cs total offset)%nat as Hmn by lia.
  assert (1 ≤ m)%nat as Hm.
  { pose proof (chunks_left_pos total offset Hlt). unfold args_ok in mt_ok.
    fold mt in mt_ok. lia. }
  rewrite (progression_split total offset m Hmn), run_jobs_app.
  cbn [fst snd]. intros d.
  rewrite collect_app.
  destruct (run_jobs job (progression offset cs m) s) as [results s1]. cbn [fst snd].
  destruct (collect results dumped) as [e|dumped']; [done|]. intros Hd.
  specialize (IH (offset + Z.of_nat m * cs) dumped' s1).
  rewrite chunks_left_after in IH by done.
  destruct (IH ltac:(lia) d Hd) as [submitted ->]. eexists.
  do 3 f_equal. lia.
Qed.

Lemma chunks_left_lt total offset (k : nat) :
  (k < chunks_left cs total offset)%nat ↔ offset + Z.of_nat k * cs < total.
Proof.
  split.
  - intros Hk. pose proof (chunks_left_after total offset k ltac:(lia)) as E.
    destruct (decide (offset + Z.of_nat k * cs < total)) as [|Hge]; [done|].
    rewrite chunks_left_done in E by lia. lia.
  - intros Hk. pose proof (chunks_left_reach total offset). nia.
Qed.


(** *** A lost chunk *)

Lemma filter_eq_NoDup (l : list Z) x :
  NoDup l → x ∈ l → length (filter (λ o, o = x) l) = 1%nat.
Proof.
  induction 1 as [|o l Ho Hl IH]; [by intros ?%elem_of_nil|].
  intros Hx. destruct (decide (o = x)) as [->|Hne].
  - rewrite filter_cons_True by done. cbn. f_equal.
    apply length_zero_iff_nil. apply elem_of_nil_inv. intros y Hy.
    apply list_elem_of_filter in Hy as [-> Hy]. done.
  - rewrite filter_cons_False by done. apply IH.
    apply elem_of_cons in Hx as [->|]; done.
Qed.

Lemma progression_above start n o :
  o ∈ progression start cs n → start ≤ o.
Proof.
  intros [k Hk]%list_elem_of_lookup. apply progression_lookup in Hk as [_ ->]. nia.
Qed.

Lemma contribution_sum total failing n offset :
  n = chunks_left cs total offset →
  failing + cs ≤ total →
  foldr Z.add 0 (contribution cs total failing <$> progression offset cs n) =
  Z.max 0 (total - offset)
    - (if decide (failing ∈ progression offset cs n) then cs else 0).
Proof.
  intros Hn Hf. revert offset Hn. induction n as [|n IH]; intros offset Hn.
  - cbn. rewrite decide_False by apply not_elem_of_nil.
    destruct (decide (offset < total)) as [H|H]; [|lia].
    pose proof (chunks_left_pos total offset H). lia.
  - assert (offset < total) as Hlt.
    { destruct (decide (offset < total)); [done|].
      rewrite chunks_left_done in Hn by lia. done. }
    rewrite chunks_left_step in Hn by done.
    cbn [progression fmap list_fmap foldr]. rewrite IH by lia.
    unfold contribution at 1, planned.
    destruct (decide (offset = failing)) as [->|Hne].
    + rewrite (decide_True (P := failing ∈ _ :: _)) by left.
      rewrite decide_False; [lia|].
      intros H%progression_above. lia.
    + destruct (decide (failing ∈ progression (offset + cs) cs n)) as [Hin|Hin].
      * rewrite (decide_True (P := failing ∈ _ :: _)) by (by right). lia.
      * rewrite (decide_False (P := failing ∈ _ :: _)); [lia|].
        intros [?|?]%elem_of_cons; done.
Qed.


End Scheduler.

(** ** Frames: what the parts of the script leave alone *)

Lemma process_chunk_frame fieldnames offset (s : State) :
  let s' := (process_chunk fieldnames offset s).2 in
  output_csv s' = output_csv s ∧ output_token_csv s' = output_token_csv s ∧
  temp_token s' = temp_token s.
Proof.
  cbv zeta. unfold process_chunk.
  destruct (make_api_call_effects (mkRequest GET (scan_url offset) None) s)
    as (_ & _ & Hc & Ht & Ho & _).
  destruct (make_api_call _ s) as [r s1]. cbn [fst snd] in *.
  destruct (ok200 r) as [r'|]; [|done].
  destruct (json r'); [|done].
  destruct (write_scan_rows _ _) as [written [e|]]; done.
Qed.

Lemma process_token_chunk_frame fieldnames ids (s : State) :
  let s' := (process_token_chunk fieldnames ids s).2 in
  output_csv s' = output_csv s ∧ output_token_csv s' = output_token_csv s ∧
  temp_output s' = temp_output s.
Proof.
  cbv zeta. unfold process_token_chunk.
  destruct (make_api_call_effects (mkRequest GET (token_url ids) None) s)
    as (_ & Ht & Hc & _ & Ho & _).
  destruct (make_api_call _ s) as [r s1]. cbn [fst snd] in *.
  destruct (ok200 r) as [r'|]; [|done].
  destruct (json r'); [|done].
  destruct (write_token_rows _ _) as [written [e|]]; done.
Qed.

Lemma run_jobs_frame {A} (f : State → A) (job : Z → State → job_result * State) :
  (∀ o s, f (job o s).2 = f s) →
  ∀ l s, f (run_jobs job l s).2 = f s.
Proof.
  intros Hjob. induction l as [|o l IH]; intros s; cbn; [done|].
  specialize (Hjob o s). destruct (job o s) as [r s1]. specialize (IH s1).
  destruct (run_jobs job l s1) as [rs s2]. cbn in *. congruence.
Qed.

Lemma waves_frame {A} (f : State → A) (job : Z → State → job_result * State) :
  (∀ o s, f (job o s).2 = f s) →
  ∀ fuel total offset dumped s, f (waves fuel job total offset dumped s).2 = f s.
Proof.
  intros Hjob. induction fuel as [|fuel IH]; intros total offset dumped s;
    cbn [waves]; [done|].
  destruct (decide (offset < total)); [|done].
  destruct (submit_wave _ offset total) as [futures offset'].
  pose proof (run_jobs_frame f job Hjob futures s) as Hr.
  destruct (run_jobs job futures s) as [results s1]. cbn [snd] in Hr.
  destruct (collect results dumped) as [e|dumped']; [done|].
  specialize (IH total offset' dumped' s1).
  destruct (waves fuel job total offset' dumped' s1) as [[r submitted] s2].
  cbn [snd] in *. congruence.
Qed.

Lemma count_records_frame (s : State) :
  let s' := (count_records s).2 in
  output_csv s' = output_csv s ∧ output_token_csv s' = output_token_csv s.
Proof.
  cbv zeta. unfold count_records.
  destruct (make_api_call_effects count_request s)
    as (_ & _ & Hc & _ & Ho & _).
  destruct (make_api_call _ s) as [r s1]. cbn [fst snd] in *.
  destruct (ok200 r) as [r'|]; [|done].
  destruct (json r') as [b|]; [|done].
  destruct (records b) as [[|rec recs]|]; try done.
  destruct (fields rec) as [flds|]; [|done].
  by destruct (py_dict flds !! count_star).
Qed.

Lemma probe_schema_frame (s : State) :
  let s' := (probe_schema s).2 in
  output_csv s' = output_csv s ∧ output_token_csv s' = output_token_csv s.
Proof.
  cbv zeta. unfold probe_schema.
  destruct (make_api_call_effects (mkRequest GET (scan_url 0) None)
              (set_temp_output (Some [[]]) s))
    as (_ & _ & Hc & _ & Ho & _).
  destruct (make_api_call _ _) as [r s1]. cbn [fst snd] in *.
  destruct (ok200 r) as [r'|]; [|done].
  destruct (json r') as [b|]; [|done].
  destruct (records b) as [[|rec recs]|]; try done.
  destruct (fields rec) as [flds|]; [|done].
  by destruct (derive_fieldnames _ _).
Qed.

Lemma scan_frame fuel fieldnames total (s : State) :
  let s' := (scan fuel fieldnames total s).2 in
  output_csv s' = output_csv s ∧ output_token_csv s' = output_token_csv s.
Proof.
  cbv zeta. unfold scan. destruct total; try done.
  split.
  - apply (waves_frame output_csv). intros. apply process_chunk_frame.
  - apply (waves_frame output_token_csv). intros. apply process_chunk_frame.
Qed.

Lemma tokenize_frame fuel fieldnames (s : State) :
  output_csv (tokenize fuel fieldnames s).2 = output_csv s.
Proof.
  unfold tokenize.
  destruct (collect_ids _ _ _ _) as [e|[ids jm]]; [done|].
  match goal with |- context [waves ?f ?j ?t ?c ?d ?s0] =>
    pose proof (waves_frame output_csv j
      (λ x y, proj1 (process_token_chunk_frame fieldnames _ y)) f t c d s0) as Hw;
    destruct (waves f j t c d s0) as [[r submitted] s3] end.
  cbn [snd] in Hw. cbn in Hw.
  destruct r; try done.
  destruct (token_publish _ _ _ _) as [e|[published e]]; [done|].
  destruct (OUTPUT_TOKEN_CSV args); [|done].
  by destruct e.
Qed.

(** ** A record with a field outside the schema *)

Lemma rendered_keys (flds : list (string * jvalue)) :
  (prod_map id csv_cell <$> flds).*1 = flds.*1.
Proof. rewrite <- list_fmap_compose. apply list_fmap_ext. by intros i [k v]. Qed.

Lemma write_scan_rows_unknown fieldnames recs rec flds k :
  rec ∈ recs → fields rec = Some flds → k ∈ flds.*1 → k ∉ fieldnames →
  ∃ e, (write_scan_rows fieldnames recs).2 = Some e ∧
    (Forall (λ r, is_Some (fields r)) recs →
     e = ValueError "dict contains fields not in fieldnames").
Proof.
  intros Hin Hf Hk Hnot. induction recs as [|a recs IH]; [by apply elem_of_nil in Hin|].
  cbn [write_scan_rows]. destruct (fields a) as [fl|] eqn:Ea.
  2: { eexists. split; [done|]. intros [[? ?] _]%Forall_cons. congruence. }
  destruct (dict_to_list fieldnames _) as [e|cells] eqn:Ed.
  - exists e. split; [done|]. intros _. unfold dict_to_list in Ed.
    case_decide; congruence.
  - apply elem_of_cons in Hin as [->|Hin].
    + rewrite Hf in Ea. injection Ea as <-.
      rewrite (dict_to_list_extra _ _ k) in Ed; [done| |done].
      apply py_dict_is_Some. by rewrite rendered_keys.
    + destruct (IH Hin) as (e & He & Hv).
      destruct (write_scan_rows fieldnames recs) as [written e']. cbn in *.
      exists e. split; [done|]. intros [_ ?]%Forall_cons. auto.
Qed.

(** The token path projects every record on the schema and never raises. *)
Lemma write_token_rows_total fieldnames recs :
  write_token_rows fieldnames recs =
  ((λ rec, (λ field, default "" (csv_cell <$> (py_dict (default [] (fields rec)) !! field)))
             <$> fieldnames) <$> recs,
   None).
Proof.
  induction recs as [|rec recs IH]; cbn [write_token_rows]; [done|].
  unfold token_row.
  rewrite (dict_to_list_tabulate fieldnames
             (λ field, default "" (csv_cell <$> (py_dict (default [] (fields rec)) !! field)))).
  by rewrite IH.
Qed.

Lemma process_chunk_raises fieldnames offset (s : State) r recs rec flds k :
  (make_api_call (mkRequest GET (scan_url offset) None) s).1 = Some r →
  status_code r = 200 →
  json r = Some (mkBody (Some recs)) →
  rec ∈ recs → fields rec = Some flds → k ∈ flds.*1 → k ∉ fieldnames →
  ∃ e, (process_chunk fieldnames offset s).1 = inl e ∧
    (Forall (λ r, is_Some (fields r)) recs →
     e = ValueError "dict contains fields not in fieldnames").
Proof.
  intros Hr H200 Hj Hin Hf Hk Hnot. unfold process_chunk.
  destruct (make_api_call _ s) as [r' s1]. cbn in Hr. subst r'. cbn.
  rewrite decide_True by done. rewrite Hj. cbn.
  destruct (write_scan_rows_unknown fieldnames recs rec flds k Hin Hf Hk Hnot)
    as (e & He & Hv).
  destruct (write_scan_rows fieldnames recs) as [written e']. cbn in He. subst e'.
  by exists e.
Qed.

(** An exception of the first job of a wave comes out of
    [future.result()] and ends the loop. *)
Lemma waves_first_raises (job : Z → State → job_result * State)
    fuel total offset dumped (s : State) e :
  args_ok args → offset < total → (job offset s).1 = inl e →
  ∃ futures,
    waves (S fuel) job total offset dumped s =
    (Raised e, [offset :: futures],
     (run_jobs job (offset :: futures) s).2).
Proof.
  intros Hmt Hlt He. cbn [waves]. rewrite decide_True by done.
  unfold args_ok in Hmt. rewrite seqZ_cons by lia. cbn [submit_wave].
  rewrite decide_False by lia.
  destruct (submit_wave _ _ total) as [futures offset']. exists futures.
  cbn [run_jobs]. destruct (job offset s) as [r s1]. cbn in He. subst r.
  destruct (run_jobs job futures s1) as [rs s2]. done.
Qed.

(** C10: a successful scan response with a record that has a field outside
    the schema makes the chunk fetch raise (a ValueError of the row writer,
    when every record has its fields) instead of returning a count; the
    exception is re-raised where the wave is joined, the loop and the whole
    run end with it, and nothing is published.  The token path, in contrast,
    writes one cell per schema field for every record, empty where the field
    is missing, and drops the other fields. *)
Theorem scan_chunk_unknown_field_aborts fieldnames total (s0 s1 s : State)
    fuel r recs rec flds k :
  args_ok args →
  count_records s0 = (inr (JInt total), s1) →
  probe_schema s1 = (inr fieldnames, s) →
  0 < total →
  (make_api_call (mkRequest GET (scan_url 0) None) s).1 = Some r →
  status_code r = 200 →
  json r = Some (mkBody (Some recs)) →
  rec ∈ recs → fields rec = Some flds → k ∈ flds.*1 → k ∉ fieldnames →
  (∃ e, (process_chunk fieldnames 0 s).1 = inl e ∧
     (Forall (λ r, is_Some (fields r)) recs →
      e = ValueError "dict contains fields not in fieldnames") ∧
     (∃ submitted s', scan (S fuel) fieldnames (JInt total) s = (Raised e, submitted, s')) ∧
     ∃ s', main (S fuel) s0 = (Uncaught e, s') ∧ exit_status (Uncaught e) = Some 1 ∧
           output_csv s' = output_csv s0) ∧
  (∀ recs', write_token_rows fieldnames recs' =
     ((λ rec, (λ field, default "" (csv_cell <$> (py_dict (default [] (fields rec)) !! field)))
                <$> fieldnames) <$> recs',
      None)).
Proof.
  intros Hmt Hcount Hprobe Htot Hr H200 Hj Hin Hf Hk Hnot.
  split; [|apply write_token_rows_total].
  destruct (process_chunk_raises fieldnames 0 s r recs rec flds k Hr H200 Hj Hin Hf Hk Hnot)
    as (e & He & Hv).
  exists e. split; [done|]. split; [done|].
  destruct (waves_first_raises (process_chunk fieldnames) fuel total 0 0 s e Hmt Htot He)
    as [futures Hw].
  split; [by eexists _, _|].
  unfold main, export. rewrite Hcount, Hprobe.
  unfold scan. rewrite Hw. eexists. split; [done|]. split; [done|].
  rewrite (run_jobs_frame output_csv (process_chunk fieldnames)
             (λ o s, proj1 (process_chunk_frame fieldnames o s))).
  pose proof (proj1 (probe_schema_frame s1)) as H1. rewrite Hprobe in H1.
  pose proof (proj1 (count_records_frame s0)) as H0. rewrite Hcount in H0.
  cbn in *. congruence.
Qed.

(** ** The gates *)

Lemma probe_schema_unfold (s1 : State) :
  probe_schema s1 =
  match ok200 (probe s1).1 with
  | None => fatal ("Failed to retrieve data: " +:+ text_of (probe s1).1) (probe s1).2
  | Some r =>
      match json r with
      | None => (inl (Uncaught JSONDecodeError), (probe s1).2)
      | Some initial_data =>
          match records initial_data with
          | None | Some [] => fatal "No records found in initial response" (probe s1).2
          | Some (rec :: _) =>
              match fields rec with
              | None => (inl (Uncaught (KeyError "fields")), (probe s1).2)
              | Some flds =>
                  match derive_fieldnames (UNIQUE_ID_COLUMN args) flds.*1 with
                  | None =>
                      fatal "Unique column specified is not found. Please rerun the script without the parameter or specify the correct name of unique column." (probe s1).2
                  | Some fieldnames =>
                      (inr fieldnames,
                       set_temp_output (Some [fieldnames])
                         (print ("Fieldnames for CSV: " +:+ repr_list fieldnames)
                            (probe s1).2))
                  end
              end
          end
      end
  end.
Proof.
  unfold probe_schema, probe.
  by destruct (make_api_call _ _) as [r s2].
Qed.

(** What a failed gate leaves: the message at the end of the error log and
    of the output, the exit code 1, and no output file. *)
Lemma gate_failure_fatal (s : State) msg fuel :
  gate_failure s msg →
  ∃ s', main fuel s = (SysExit 1, s') ∧
    last (error_log s') = Some msg ∧ last (stdout s') = Some msg ∧
    output_csv s' = output_csv s ∧ output_token_csv s' = output_token_csv s.
Proof.
  intros Hg. unfold main, export.
  destruct Hg as [Hc|total s1 Hc Hp|total s1 r b Hc Hp Hj Hr
                 |total s1 r b rec rest flds u Hc Hp Hj Hr Hf Hu Hn].
  - unfold count_records.
    destruct (make_api_call_effects count_request s)
      as (_ & _ & Ho & _ & Ht & _).
    destruct (make_api_call _ s) as [r s1]. cbn [fst snd] in *. rewrite Hc.
    eexists. split; [done|]. cbn. by rewrite !last_snoc.
  - rewrite Hc, probe_schema_unfold, Hp.
    destruct (count_records_frame s) as [Ho Ht]. rewrite Hc in Ho, Ht.
    destruct (make_api_call_effects (mkRequest GET (scan_url 0) None)
                (set_temp_output (Some [[]]) s1)) as (_ & _ & Ho' & _ & Ht' & _).
    fold (probe s1) in Ho', Ht'.
    eexists. split; [done|]. cbn in *. rewrite !last_snoc.
    repeat split; congruence.
  - rewrite Hc, probe_schema_unfold, Hp, Hj.
    destruct (count_records_frame s) as [Ho Ht]. rewrite Hc in Ho, Ht.
    destruct (make_api_call_effects (mkRequest GET (scan_url 0) None)
                (set_temp_output (Some [[]]) s1)) as (_ & _ & Ho' & _ & Ht' & _).
    fold (probe s1) in Ho', Ht'.
    destruct Hr as [-> | ->]; (eexists; split; [done|]); cbn in *;
      rewrite !last_snoc; repeat split; congruence.
  - rewrite Hc, probe_schema_unfold, Hp, Hj, Hr, Hf.
    unfold derive_fieldnames. rewrite Hu, decide_False by done.
    destruct (count_records_frame s) as [Ho Ht]. rewrite Hc in Ho, Ht.
    destruct (make_api_call_effects (mkRequest GET (scan_url 0) None)
                (set_temp_output (Some [[]]) s1)) as (_ & _ & Ho' & _ & Ht' & _).
    fold (probe s1) in Ho', Ht'.
    eexists. split; [done|]. cbn in *. rewrite !last_snoc.
    repeat split; congruence.
Qed.

(** A run of the export that gets to its end went through the scan loop
    and published the buffer the loop left. *)
Lemma export_published fuel (s : State) fieldnames s' :
  export fuel s = (inr fieldnames, s') →
  ∃ total s1 s2 cursor dumped submitted s3,
    count_records s = (inr (JInt total), s1) ∧
    probe_schema s1 = (inr fieldnames, s2) ∧
    scan fuel fieldnames (JInt total) s2 = (Drained cursor dumped, submitted, s3) ∧
    s' = publish dumped s3.
Proof.
  unfold export.
  destruct (count_records s) as [[e|total] s1]; [done|].
  destruct (probe_schema s1) as [[e|fs] s2] eqn:Ep; [done|].
  destruct (scan fuel fs total s2) as [[r submitted] s3] eqn:Es.
  destruct r as [cursor dumped|e|]; [|done|done].
  intros [= <- <-].
  destruct total as [?|total|]; try (cbn in Es; congruence).
  by eexists total, s1, s2, cursor, dumped, submitted, s3.
Qed.

(** A run that stops inside the export does not exit with status 0. *)
Lemma export_stops fuel (s : State) e s' :
  export fuel s = (inl e, s') → e ≠ Completed.
Proof.
  unfold export, count_records.
  destruct (make_api_call _ s) as [r s1].
  destruct (ok200 r) as [r'|]; [|by intros [= <- _]].
  destruct (json r') as [b|]; [|by intros [= <- _]].
  destruct (records b) as [[|rec recs]|]; try by intros [= <- _].
  destruct (fields rec) as [flds|]; [|by intros [= <- _]].
  destruct (py_dict flds !! count_star) as [total|]; [|by intros [= <- _]].
  rewrite probe_schema_unfold.
  destruct (ok200 (probe _).1) as [r2|]; [|by intros [= <- _]].
  destruct (json r2) as [b2|]; [|by intros [= <- _]].
  destruct (records b2) as [[|rec2 recs2]|]; try by intros [= <- _].
  destruct (fields rec2) as [flds2|]; [|by intros [= <- _]].
  destruct (derive_fieldnames _ _) as [fs|]; [|by intros [= <- _]].
  destruct (scan fuel fs total _) as [[[c d|e'|] submitted] s3]; by intros [= <- _].
Qed.

(** C6: when a gate of the pipeline fails (the count query fails, the first
    page fails or has no record, or the unique column is not in the first
    record) the run ends with exit code 1 after the message has been
    written to the error log, and the output files are as they were: nothing
    is published.  A run that completes went through the count, the first
    page and the scan loop, has published the buffer that the loop left
    (copied row by row through a read in text mode), and exits with code
    0. *)
Theorem pipeline_gates fuel (s : State) :
  (∀ msg, gate_failure s msg →
     ∃ s', main fuel s = (SysExit 1, s') ∧
       exit_status (SysExit 1) = Some 1 ∧
       last (error_log s') = Some msg ∧
       output_csv s' = output_csv s ∧
       output_token_csv s' = output_token_csv s) ∧
  (∀ s', main fuel s = (Completed, s') →
     exit_status Completed = Some 0 ∧
     ∃ total s1 fieldnames s2 cursor dumped submitted s3,
       count_records s = (inr (JInt total), s1) ∧
       probe_schema s1 = (inr fieldnames, s2) ∧
       scan fuel fieldnames (JInt total) s2 = (Drained cursor dumped, submitted, s3) ∧
       output_csv s' = Some (text_mode (default [] (temp_output s3)))).
Proof.
  split.
  - intros msg Hg. destruct (gate_failure_fatal s msg fuel Hg) as (s' & ? & ? & ? & ? & ?).
    by exists s'.
  - intros s' Hm. split; [done|]. unfold main in Hm.
    destruct (export fuel s) as [[e|fs] s1] eqn:Ee.
    { injection Hm as -> _. by apply export_stops in Ee. }
    apply export_published in Ee
      as (total & s1' & s2 & cursor & dumped & submitted & s3 & Hc & Hp & Hs & ->).
    exists total, s1', fs, s2, cursor, dumped, submitted, s3.
    split; [done|]. split; [done|]. split; [done|].
    destruct (DUMP_TOKENS_ENABLED args).
    + pose proof (tokenize_frame fuel fs (publish dumped s3)) as Hf.
      rewrite Hm in Hf. cbn in Hf. done.
    + by injection Hm as <-.
Qed.

(** ** Column order *)

(** The requests of a call: the same request, one to three times. *)
Lemma make_api_call_requests req (s : State) :
  ∃ n, (1 ≤ n ≤ 3)%nat ∧
    http_log (make_api_call req s).2 = http_log s ++ replicate n req.
Proof.
  rewrite make_api_call_unfold. cbv zeta.
  destruct (first_try req (net s)); [|by exists 1%nat; split; [lia|]].
  destruct (first_try req (http req (net s)).2); [|by exists 2%nat; split; [lia|]].
  destruct (first_try req (http req (http req (net s)).2).2);
    by exists 3%nat; split; [lia|].
Qed.

Lemma derive_fieldnames_unique u keys :
  u ≠ "" → u ∈ keys →
  derive_fieldnames (Some u) keys =
  Some (u :: "skyflow_id" :: filter (λ f, f ∉ [u; "skyflow_id"]) keys).
Proof.
  intros Hu Hin. unfold derive_fieldnames. cbn.
  rewrite decide_False by done. by rewrite decide_True.
Qed.

(** With distinct keys and a unique column other than the record identifier
    the field names are distinct. *)
Lemma derive_fieldnames_NoDup unique keys fieldnames :
  NoDup keys → truthy unique ≠ Some "skyflow_id" →
  derive_fieldnames unique keys = Some fieldnames → NoDup fieldnames.
Proof.
  intros Hk Hu. unfold derive_fieldnames. destruct (truthy unique) as [u|].
  - case_decide; [|done]. intros [= <-]. cbn.
    apply NoDup_cons. split.
    { intros [?|Hin]%elem_of_cons; [congruence|].
      apply list_elem_of_filter in Hin as [Hin _]. apply Hin. left. }
    apply NoDup_cons. split; [|by apply NoDup_filter].
    intros Hin. apply list_elem_of_filter in Hin as [Hin _]. apply Hin. right. left.
  - intros [= <-]. cbn. apply NoDup_cons. split; [|by apply NoDup_filter].
    intros Hin. by apply list_elem_of_filter in Hin as [Hin _].
Qed.

Lemma filter_all {A} (P : A → Prop) `{∀ x, Decision (P x)} (l : list A) :
  (∀ x, x ∈ l → P x) → filter P l = l.
Proof.
  induction l as [|x l IH]; [done|]. intros Hl.
  rewrite filter_cons_True by (apply Hl; left).
  f_equal. apply IH. intros y Hy. apply Hl. by right.
Qed.

(** C3 (amended): from the keys of the first record the field names are: the
    unique column, when one is asked for and is a key, then skyflow_id;
    otherwise skyflow_id first; then the other keys in their own order.
    This is a reordering of the keys when skyflow_id is among them and is
    not the unique column; otherwise it is the keys and one skyflow_id more
    (added when it is not a key, listed twice when it is the unique column).
    When the unique column is asked for and is not a key of the first
    record, the run ends with exit code 1 and the only requests sent after
    the count query are those of the first page: no further chunk is
    fetched. *)
Theorem schema_derivation unique keys :
  (∀ u, truthy unique = Some u → u ∈ keys →
     ∃ fieldnames, derive_fieldnames unique keys = Some fieldnames ∧
       fieldnames !! 0%nat = Some u ∧
       fieldnames !! 1%nat = Some "skyflow_id" ∧
       drop 2 fieldnames `sublist_of` keys ∧
       (∀ f, f ∈ drop 2 fieldnames ↔ f ∈ keys ∧ f ≠ u ∧ f ≠ "skyflow_id") ∧
       (∀ f, f ∈ keys → f ∈ fieldnames) ∧
       (NoDup keys → "skyflow_id" ∈ keys → u ≠ "skyflow_id" → fieldnames ≡ₚ keys) ∧
       (NoDup keys → "skyflow_id" ∉ keys ∨ u = "skyflow_id" →
        fieldnames ≡ₚ "skyflow_id" :: keys)) ∧
  (truthy unique = None →
     ∃ fieldnames, derive_fieldnames unique keys = Some fieldnames ∧
       fieldnames !! 0%nat = Some "skyflow_id" ∧
       drop 1 fieldnames `sublist_of` keys ∧
       (∀ f, f ∈ drop 1 fieldnames ↔ f ∈ keys ∧ f ≠ "skyflow_id") ∧
       (∀ f, f ∈ keys → f ∈ fieldnames) ∧
       (NoDup keys → "skyflow_id" ∈ keys → fieldnames ≡ₚ keys) ∧
       ("skyflow_id" ∉ keys → fieldnames = "skyflow_id" :: keys)) ∧
  (∀ u fuel (s : State) total_records s1 r initial_data rec rest flds,
     unique = UNIQUE_ID_COLUMN args →
     truthy unique = Some u →
     count_records s = (inr total_records, s1) →
     ok200 (probe s1).1 = Some r →
     json r = Some initial_data →
     records initial_data = Some (rec :: rest) →
     fields rec = Some flds →
     keys = flds.*1 →
     u ∉ keys →
     derive_fieldnames unique keys = None ∧
     ∃ s' n, main fuel s = (SysExit 1, s') ∧
       (1 ≤ n ≤ 3)%nat ∧
       http_log s' = http_log s1 ++ replicate n (mkRequest GET (scan_url 0) None) ∧
       output_csv s' = output_csv s).
Proof.
  split; [|split].
  - intros u Hu Hin. unfold derive_fieldnames. rewrite Hu, decide_True by done.
    eexists. split; [done|]. split; [done|]. split; [done|]. cbn [drop app]. rewrite drop_0.
    split; [apply sublist_filter|]. split.
    + intros f. rewrite list_elem_of_filter, !not_elem_of_cons.
      split; [by intros [(?&?&?) ?]|].
      intros (?&?&?). repeat split; try done. apply not_elem_of_nil.
    + assert (∀ f, f ∈ keys → f ∈ u :: "skyflow_id" :: filter (λ f, f ∉ [u; "skyflow_id"]) keys)
        as Hall.
      { intros f Hf. destruct (decide (f = u)) as [->|?]; [left|].
        destruct (decide (f = "skyflow_id")) as [->|?]; [right; left|].
        do 2 right. apply list_elem_of_filter. split; [|done].
        rewrite !not_elem_of_cons. split; [done|]. split; [done|]. apply not_elem_of_nil. }
      split; [exact Hall|]. split.
      { intros Hnd Hsk Hne. apply NoDup_Permutation; [|done|].
        * apply (derive_fieldnames_NoDup unique keys); [done|congruence|].
          unfold derive_fieldnames. by rewrite Hu, decide_True.
        * intros f. split; [|apply Hall].
          intros [->|[->|Hf%list_elem_of_filter]%elem_of_cons]%elem_of_cons; tauto. }
      intros Hnd Hor.
      assert (u :: filter (λ f, f ∉ [u; "skyflow_id"]) keys ≡ₚ keys) as Hperm.
      { apply NoDup_Permutation; [|done|].
        - apply NoDup_cons. split; [|by apply NoDup_filter].
          intros [Hf _]%list_elem_of_filter. apply Hf. left.
        - intros f. rewrite elem_of_cons, list_elem_of_filter, !not_elem_of_cons.
          split; [intros [->|[_ ?]]; done|]. intros Hf.
          destruct (decide (f = u)) as [->|Hne]; [by left|]. right.
          split; [|done]. split; [done|]. split; [|apply not_elem_of_nil].
          intros ->. by destruct Hor as [Hsk| ->]. }
      rewrite (Permutation_swap "skyflow_id" u). by apply Permutation_skip.
  - intros Hu. unfold derive_fieldnames. rewrite Hu.
    eexists. split; [done|]. split; [done|]. cbn [drop app]. rewrite drop_0.
    split; [apply sublist_filter|]. split.
    + intros f. rewrite list_elem_of_filter. split; by intros [? ?].
    + assert (∀ f, f ∈ keys → f ∈ "skyflow_id" :: filter (λ f, f ≠ "skyflow_id") keys)
        as Hall.
      { intros f Hf. destruct (decide (f = "skyflow_id")) as [->|?]; [left|].
        right. by apply list_elem_of_filter. }
      split; [exact Hall|]. split.
      { intros Hnd Hsk. apply NoDup_Permutation; [|done|].
        * apply (derive_fieldnames_NoDup unique keys); [done|congruence|].
          unfold derive_fieldnames. by rewrite Hu.
        * intros f. split; [|apply Hall].
          intros [->|Hf%list_elem_of_filter]%elem_of_cons; tauto. }
      intros Hsk. f_equal. apply filter_all. by intros f Hf ->.
  - intros u fuel s total s1 r b rec rest flds -> Hu Hc Hp Hj Hr Hf -> Hn.
    split. { unfold derive_fieldnames. by rewrite Hu, decide_False. }
    unfold main, export.
    rewrite Hc, probe_schema_unfold, Hp, Hj, Hr, Hf.
    unfold derive_fieldnames. rewrite Hu, decide_False by done.
    destruct (make_api_call_requests (mkRequest GET (scan_url 0) None)
                (set_temp_output (Some [[]]) s1)) as (n & Hn3 & Hlog).
    destruct (make_api_call_effects (mkRequest GET (scan_url 0) None)
                (set_temp_output (Some [[]]) s1)) as (_ & _ & Ho' & _).
    destruct (count_records_frame s) as [Ho _]. rewrite Hc in Ho.
    fold (probe s1) in Hlog, Ho'.
    eexists _, n. split; [done|]. split; [done|]. cbn in *. split; congruence.
Qed.

(** ** The token join *)

Lemma py_dict_snoc {V} (pairs : list (string * V)) k v :
  py_dict (pairs ++ [(k, v)]) = <[k := v]> (py_dict pairs).
Proof. unfold py_dict. by rewrite foldl_app. Qed.

Lemma py_dict_lookup_Some {V} (pairs : list (string * V)) k v :
  py_dict pairs !! k = Some v → (k, v) ∈ pairs.
Proof.
  induction pairs as [|[k' v'] pairs IH] using rev_ind;
    [by unfold py_dict; cbn; rewrite lookup_empty|].
  rewrite py_dict_snoc, elem_of_app, list_elem_of_singleton.
  destruct (decide (k' = k)) as [->|Hne].
  - rewrite lookup_insert_eq. intros [= ->]. by right.
  - rewrite lookup_insert_ne by done. auto.
Qed.


Lemma zip_tabulate (g : string → string) (l : list string) :
  zip l (g <$> l) = (λ f, (f, g f)) <$> l.
Proof. induction l; cbn; by f_equal. Qed.

Lemma cell_tabulate fieldnames (g : string → string) name :
  cell fieldnames name (g <$> fieldnames) =
  if decide (name ∈ fieldnames) then Some (g name) else None.
Proof. unfold cell. by rewrite zip_tabulate, py_dict_tabulate. Qed.



Lemma dict_reader_written fieldnames rows :
  fieldnames ≠ [] → Forall (written_with fieldnames) rows →
  dict_reader (fieldnames :: rows) = (λ r, py_dict (zip fieldnames r)) <$> rows.
Proof.
  intros Hne Hrows. cbn. f_equal. induction Hrows as [|r rows [g ->] _ IH]; [done|].
  rewrite filter_cons_True; [by f_equal|]. by destruct fieldnames.
Qed.

Section Join.

Variables (fieldnames : list string) (u : string).
Hypothesis u_truthy : u ≠ "".
Hypothesis u_column : u ∈ fieldnames.
Hypothesis id_column : "skyflow_id" ∈ fieldnames.

Lemma collect_ids_written rows skyflow_ids (additional_fields : gmap string string) :
  Forall (written_with fieldnames) rows →
  collect_ids (Some u) ((λ r, py_dict (zip fieldnames r)) <$> rows)
    skyflow_ids additional_fields =
  inr (skyflow_ids ++ (join_pairs fieldnames u rows).*1,
       foldl (λ m kv, <[kv.1 := kv.2]> m) additional_fields
         (join_pairs fieldnames u rows)).
Proof.
  intros Hrows. revert skyflow_ids additional_fields.
  induction Hrows as [|r rows [g ->] _ IH]; intros ids jm; cbn.
  - by rewrite app_nil_r.
  - rewrite decide_False by done. rewrite zip_tabulate, !py_dict_tabulate.
    rewrite !decide_True by done. rewrite IH. unfold cell.
    rewrite zip_tabulate, !py_dict_tabulate, !decide_True by done. cbn.
    by rewrite <- app_assoc.
Qed.




End Join.

(** ** The end of the run *)


(** ** The requests of the chunk fetchers *)

Lemma append_assoc (a b c : string) : (a +:+ b) +:+ c = a +:+ b +:+ c.
Proof.
  induction a as [|x a IH]; [done|].
  change (String x ((a +:+ b) +:+ c) = String x (a +:+ b +:+ c)). by rewrite IH.
Qed.

Lemma append_nil_r (a : string) : a +:+ "" = a.
Proof.
  induction a as [|x a IH]; [done|].
  change (String x (a +:+ "") = String x a). by rewrite IH.
Qed.

Lemma concat_cons (x : string) xs :
  String.concat "" (x :: xs) = x +:+ String.concat "" xs.
Proof. destruct xs; cbn; [by rewrite append_nil_r|done]. Qed.

(** A token chunk asks for its identifiers as repeated [skyflow_ids]
    parameters. *)
Lemma token_url_spec ids :
  token_url ids =
  (table_url +:+ "?tokenization=true")
    +:+ String.concat "" ((λ skyflow_id, "&skyflow_ids=" +:+ skyflow_id) <$> ids).
Proof.
  unfold token_url.
  generalize (table_url +:+ "?tokenization=true"). intros base.
  revert base. induction ids as [|a ids IH]; intros base.
  - cbn. by rewrite append_nil_r.
  - rewrite fmap_cons, concat_cons. cbn [foldl]. rewrite IH.
    by rewrite append_assoc.
Qed.

(** The requests of a scan chunk, and what they are made of: the offset,
    the redaction level and the ascending order. *)
Lemma scan_request_spec fieldnames offset (s : State) :
  (∃ n, (1 ≤ n ≤ 3)%nat ∧
     http_log (process_chunk fieldnames offset s).2 =
     http_log s ++ replicate n (mkRequest GET (scan_url offset) None)) ∧
  scan_url offset =
    table_url +:+ "?redaction=" +:+ redaction_str (REDACTION_LEVEL args)
      +:+ "&offset=" +:+ pretty offset +:+ "&order_by=ASCENDING".
Proof.
  split; [|done].
  destruct (make_api_call_requests (mkRequest GET (scan_url offset) None) s)
    as (n & Hn & Hlog).
  exists n. split; [done|]. unfold process_chunk.
  destruct (make_api_call _ s) as [r s1]. cbn [snd] in Hlog.
  destruct (ok200 r) as [r'|]; [|done].
  destruct (json r'); [|done].
  by destruct (write_scan_rows _ _) as [written [e|]].
Qed.

(** * More of the script *)

(** ** What the buffers hold *)

Lemma dict_to_list_written fieldnames (rowdict : gmap string string) cells :
  dict_to_list fieldnames rowdict = inr cells → written_with fieldnames cells.
Proof.
  unfold dict_to_list. case_decide; [|done]. intros [= <-].
  by exists (λ key, default "" (rowdict !! key)).
Qed.

Lemma write_scan_rows_written fieldnames recs :
  Forall (written_with fieldnames) (write_scan_rows fieldnames recs).1 ∧
  ((write_scan_rows fieldnames recs).2 = None →
   length (write_scan_rows fieldnames recs).1 = length recs).
Proof.
  induction recs as [|rec recs [IH1 IH2]]; cbn [write_scan_rows]; [by split|].
  destruct (fields rec) as [flds|]; [|by split].
  destruct (dict_to_list fieldnames _) as [e|cells] eqn:Ed; [by split|].
  destruct (write_scan_rows fieldnames recs) as [written e]. cbn in *.
  split; [|by intros ->%IH2].
  constructor; [by eapply dict_to_list_written|done].
Qed.

Section Buffer.

(** A job that appends to a buffer rows written with the field names, as
    many as the count it returns. *)
Variable job : Z → State → job_result * State.
Variable buffer : State → option table.
Variable fieldnames : list string.

Hypothesis job_appends : ∀ o s,
  ∃ rows, default [] (buffer (job o s).2) = default [] (buffer s) ++ rows ∧
    Forall (written_with fieldnames) rows ∧
    ∀ n, (job o s).1 = inr n → Z.of_nat (length rows) = n.

Lemma run_jobs_appends l (s : State) dumped :
  ∃ rows,
    default [] (buffer (run_jobs job l s).2) = default [] (buffer s) ++ rows ∧
    Forall (written_with fieldnames) rows ∧
    ∀ d, collect (run_jobs job l s).1 dumped = inr d →
         dumped + Z.of_nat (length rows) = d.
Proof.
  revert s dumped. induction l as [|o l IH]; intros s dumped; cbn [run_jobs].
  - exists []. rewrite app_nil_r. split; [done|]. split; [done|].
    cbn. intros d [= <-]. lia.
  - destruct (job_appends o s) as (rows1 & Hb1 & Hw1 & Hn1).
    destruct (job o s) as [r s1]. cbn [fst snd] in *.
    destruct r as [e|n].
    + destruct (IH s1 dumped) as (rows2 & Hb2 & Hw2 & _).
      destruct (run_jobs job l s1) as [rs s2]. cbn [fst snd] in *.
      exists (rows1 ++ rows2). rewrite Hb2, Hb1, <- app_assoc.
      split; [done|]. split; [by apply Forall_app|]. done.
    + destruct (IH s1 (dumped + n)) as (rows2 & Hb2 & Hw2 & Hn2).
      destruct (run_jobs job l s1) as [rs s2]. cbn [fst snd collect] in *.
      exists (rows1 ++ rows2). rewrite Hb2, Hb1, <- app_assoc.
      split; [done|]. split; [by apply Forall_app|].
      intros d Hd. specialize (Hn2 d Hd). specialize (Hn1 n eq_refl).
      rewrite length_app. lia.
Qed.

Lemma waves_appends fuel total offset dumped (s : State) :
  ∃ rows,
    default [] (buffer (waves fuel job total offset dumped s).2) =
      default [] (buffer s) ++ rows ∧
    Forall (written_with fieldnames) rows ∧
    ∀ cursor d, (waves fuel job total offset dumped s).1.1 = Drained cursor d →
                dumped + Z.of_nat (length rows) = d.
Proof.
  revert offset dumped s. induction fuel as [|fuel IH]; intros offset dumped s;
    cbn [waves].
  { exists []. by rewrite app_nil_r. }
  destruct (decide (offset < total)).
  2: { exists []. rewrite app_nil_r. split; [done|]. split; [done|].
       cbn. intros c d [= _ <-]. lia. }
  destruct (submit_wave _ offset total) as [futures offset'].
  destruct (run_jobs_appends futures s dumped) as (rows1 & Hb1 & Hw1 & Hn1).
  destruct (run_jobs job futures s) as [results s1]. cbn [fst snd] in *.
  destruct (collect results dumped) as [e|dumped'] eqn:Ec.
  { exists rows1. by cbn. }
  destruct (IH offset' dumped' s1) as (rows2 & Hb2 & Hw2 & Hn2).
  destruct (waves fuel job total offset' dumped' s1) as [[r submitted] s2].
  cbn [fst snd] in *. exists (rows1 ++ rows2). rewrite Hb2, Hb1, <- app_assoc.
  split; [done|]. split; [by apply Forall_app|].
  intros c d Hr. specialize (Hn2 c d Hr). specialize (Hn1 dumped' eq_refl).
  rewrite length_app. lia.
Qed.

End Buffer.

Lemma process_chunk_appends fieldnames o (s : State) :
  ∃ rows,
    default [] (temp_output (process_chunk fieldnames o s).2) =
      default [] (temp_output s) ++ rows ∧
    Forall (written_with fieldnames) rows ∧
    ∀ n, (process_chunk fieldnames o s).1 = inr n → Z.of_nat (length rows) = n.
Proof.
  unfold process_chunk.
  destruct (make_api_call_effects (mkRequest GET (scan_url o) None) s)
    as (_ & Ht & _).
  destruct (make_api_call _ s) as [r s1]. cbn [fst snd] in *.
  destruct (ok200 r) as [r'|].
  2: { exists []. cbn. rewrite Ht, app_nil_r. split; [done|]. split; [done|].
       by intros n [= <-]. }
  destruct (json r') as [b|].
  2: { exists []. cbn. rewrite Ht, app_nil_r. by split. }
  destruct (write_scan_rows_written fieldnames (default [] (records b))) as [Hw Hl].
  destruct (write_scan_rows fieldnames (default [] (records b))) as [written e].
  cbn [fst snd] in *. exists written. destruct e as [e|]; cbn; rewrite Ht.
  - by split.
  - split; [done|]. split; [done|]. intros n [= <-]. by rewrite Hl.
Qed.

Lemma scan_appends fuel fieldnames total (s : State) :
  ∃ rows,
    default [] (temp_output (scan fuel fieldnames total s).2) =
      default [] (temp_output s) ++ rows ∧
    Forall (written_with fieldnames) rows ∧
    ∀ cursor dumped,
      (scan fuel fieldnames total s).1.1 = Drained cursor dumped →
      Z.of_nat (length rows) = dumped.
Proof.
  unfold scan. destruct total as [?|total|].
  1,3: exists []; rewrite app_nil_r; by repeat split.
  destruct (waves_appends (process_chunk fieldnames) temp_output fieldnames
              (process_chunk_appends fieldnames) fuel total 0 0 s)
    as (rows & Hb & Hw & Hn).
  exists rows. split; [done|]. split; [done|].
  intros c d Hr. specialize (Hn c d Hr). lia.
Qed.

Lemma written_with_length fieldnames (rows : table) :
  Forall (written_with fieldnames) rows →
  Forall (λ r, length r = length fieldnames) rows.
Proof.
  intros Hrows. eapply Forall_impl; [exact Hrows|].
  intros r [g ->]. by rewrite length_fmap.
Qed.

(** X1: whatever the service answers and however the loop ends, the scan
    loop only appends to the buffer rows with one cell per field name; when
    the loop drains, the count it reports is the number of rows it appended. *)
Theorem scan_buffer_rows fuel fieldnames total (s : State) :
  let s' := (scan fuel fieldnames total s).2 in
  ∃ rows,
    default [] (temp_output s') = default [] (temp_output s) ++ rows ∧
    Forall (λ r, length r = length fieldnames) rows ∧
    (Forall (λ r, length r = length fieldnames) (default [] (temp_output s)) →
     Forall (λ r, length r = length fieldnames) (default [] (temp_output s'))) ∧
    ∀ cursor dumped,
      (scan fuel fieldnames total s).1.1 = Drained cursor dumped →
      Z.of_nat (length rows) = dumped ∧
      length (default [] (temp_output s')) =
        (length (default [] (temp_output s)) + Z.to_nat dumped)%nat.
Proof.
  cbv zeta. destruct (scan_appends fuel fieldnames total s) as (rows & Hb & Hw & Hn).
  apply written_with_length in Hw.
  exists rows. split; [done|]. split; [done|]. split.
  - intros Hs. rewrite Hb. by apply Forall_app.
  - intros c d Hr. specialize (Hn c d Hr). split; [done|].
    rewrite Hb, length_app. lia.
Qed.

Lemma derive_fieldnames_columns unique keys fieldnames :
  derive_fieldnames unique keys = Some fieldnames →
  "skyflow_id" ∈ fieldnames ∧ fieldnames ≠ [] ∧
  ∀ u, truthy unique = Some u → u ∈ fieldnames.
Proof.
  unfold derive_fieldnames. destruct (truthy unique) as [u|].
  - case_decide; [|done]. intros [= <-]. split; [right; left|]. split; [done|].
    intros ? [= <-]. left.
  - intros [= <-]. split; [left|]. by split.
Qed.

Lemma probe_schema_header (s1 : State) fieldnames s2 :
  probe_schema s1 = (inr fieldnames, s2) →
  temp_output s2 = Some [fieldnames] ∧
  ∃ keys, derive_fieldnames (UNIQUE_ID_COLUMN args) keys = Some fieldnames.
Proof.
  rewrite probe_schema_unfold.
  destruct (ok200 (probe s1).1) as [r|]; [|done].
  destruct (json r) as [b|]; [|done].
  destruct (records b) as [[|rec recs]|]; try done.
  destruct (fields rec) as [flds|]; [|done].
  destruct (derive_fieldnames _ _) as [fs|] eqn:Ed; [|done].
  intros [= <- <-]. split; [done|]. by exists flds.*1.
Qed.

(** *** Reading in text mode *)

Lemma text_mode_length (t : table) : length (text_mode t) = length t.
Proof. unfold text_mode. by rewrite length_fmap. Qed.

Lemma text_mode_written fieldnames (rows : table) :
  Forall (written_with fieldnames) rows →
  Forall (written_with fieldnames) (text_mode rows).
Proof.
  induction 1 as [|r rows [g ->] _ IH]; [constructor|].
  unfold text_mode. rewrite fmap_cons. constructor; [|exact IH].
  exists (universal_newlines ∘ g). by rewrite <- list_fmap_compose.
Qed.

Lemma text_mode_non_empty (rows : table) :
  Forall (λ r, r ≠ []) rows →
  filter (λ cells, cells ≠ []) (text_mode rows) = text_mode rows.
Proof.
  induction 1 as [|r rows Hr _ IH]; [done|].
  unfold text_mode in *. rewrite fmap_cons.
  rewrite filter_cons_True by (by destruct r). f_equal. exact IH.
Qed.

(** X2: when the export gets to its end, the output file is the header, made
    of the field names as a read in text mode gives them, followed by
    exactly as many rows as the count that is printed; every row has one cell
    per field name, and the temporary file is gone. *)
Theorem export_rows_counted fuel (s : State) fieldnames s' :
  export fuel s = (inr fieldnames, s') →
  ∃ dumped rows,
    output_csv s' = Some ((universal_newlines <$> fieldnames) :: rows) ∧
    Z.of_nat (length rows) = dumped ∧
    Forall (λ r, length r = length fieldnames) rows ∧
    Forall (written_with fieldnames) rows ∧
    temp_output s' = None ∧
    "Data dump completed. Total records dumped: " +:+ pretty dumped ∈ stdout s'.
Proof.
  intros He. apply export_published in He
    as (total & s1 & s2 & cursor & dumped & submitted & s3 & _ & Hp & Hs & ->).
  apply probe_schema_header in Hp as [Hh _].
  destruct (scan_appends fuel fieldnames (JInt total) s2) as (rows & Hb & Hw & Hn).
  rewrite Hs in Hb, Hn. cbn [fst snd] in *. rewrite Hh in Hb. cbn in Hb.
  exists dumped, (text_mode rows). cbn. rewrite Hb. split; [done|].
  split; [rewrite text_mode_length; by apply (Hn cursor)|].
  apply text_mode_written in Hw.
  split; [by apply written_with_length|].
  split; [done|]. split; [done|].
  rewrite !elem_of_app, !list_elem_of_singleton. auto.
Qed.

Lemma export_output fuel (s : State) fieldnames s' :
  export fuel s = (inr fieldnames, s') →
  ∃ rows, output_csv s' = Some ((universal_newlines <$> fieldnames) :: rows).
Proof.
  intros He. apply export_published in He
    as (total & s1 & s2 & cursor & dumped & submitted & s3 & _ & Hp & Hs & ->).
  apply probe_schema_header in Hp as [Hh _].
  destruct (scan_appends fuel fieldnames (JInt total) s2) as (rows & Hb & _).
  rewrite Hs in Hb. cbn [fst snd] in *. rewrite Hh in Hb. cbn in Hb.
  exists (text_mode rows). cbn. by rewrite Hb.
Qed.

(** ** The token file *)

Lemma process_token_chunk_appends fieldnames ids (s : State) :
  ∃ rows,
    default [] (temp_token (process_token_chunk fieldnames ids s).2) =
      default [] (temp_token s) ++ rows ∧
    Forall (written_with fieldnames) rows ∧
    ∀ n, (process_token_chunk fieldnames ids s).1 = inr n →
         Z.of_nat (length rows) = n.
Proof.
  unfold process_token_chunk.
  destruct (make_api_call_effects (mkRequest GET (token_url ids) None) s)
    as (_ & _ & _ & Ht & _).
  destruct (make_api_call _ s) as [r s1]. cbn [fst snd] in *.
  destruct (ok200 r) as [r'|].
  2: { exists []. cbn. rewrite Ht, app_nil_r. split; [done|]. split; [done|].
       by intros n [= <-]. }
  destruct (json r') as [b|].
  2: { exists []. cbn. rewrite Ht, app_nil_r. by split. }
  rewrite write_token_rows_total. eexists. cbn. rewrite Ht.
  split; [done|]. split.
  - apply Forall_fmap, Forall_true. intros rec. by eexists.
  - intros n [= <-]. by rewrite length_fmap.
Qed.

Lemma merge_rows_length unique (additional_fields : gmap string string) rows merged :
  merge_rows unique additional_fields rows = inr merged →
  length merged = length rows.
Proof.
  revert merged. induction rows as [|r rows IH]; intros merged; cbn [merge_rows].
  - by intros [= <-].
  - destruct (merge_row _ _ r) as [e|r']; [done|].
    destruct (merge_rows _ _ rows) as [e|ds]; [done|].
    intros [= <-]. cbn. f_equal. by apply IH.
Qed.

Lemma write_rows_shape fieldnames rows written :
  write_rows fieldnames rows = (written, None) →
  length written = length rows ∧ Forall (written_with fieldnames) written.
Proof.
  revert written. induction rows as [|r rows IH]; intros written; cbn [write_rows].
  - by intros [= <-].
  - destruct (dict_to_list fieldnames r) as [e|cells] eqn:Ed; [done|].
    destruct (write_rows fieldnames rows) as [w e].
    intros [= <- ->]. destruct (IH w eq_refl) as [Hl Hw]. cbn.
    split; [by f_equal|]. constructor; [by eapply dict_to_list_written|done].
Qed.

(** What the token phase publishes when it gets through: the header made of
    the field names, then one row for each non-empty row read. *)
Lemma token_publish_shape unique fieldnames (additional_fields : gmap string string)
    header rows published :
  token_publish unique fieldnames additional_fields (header :: rows)
    = inr (published, None) →
  ∃ tokens, published = fieldnames :: tokens ∧
    length tokens = length (filter (λ cells, cells ≠ []) rows) ∧
    Forall (written_with fieldnames) tokens.
Proof.
  unfold token_publish.
  destruct (merge_rows _ _ _) as [e|merged] eqn:Em; [done|].
  apply merge_rows_length in Em. cbn [dict_reader] in Em.
  rewrite length_map in Em.
  destruct (write_rows fieldnames merged) as [written e] eqn:Ew.
  intros [= <- ->]. apply write_rows_shape in Ew as [Hl Hw].
  exists written. split; [done|]. split; [congruence|done].
Qed.

(** X3: when a run with the token pass completes, the token file is the
    header made of the field names (the output file has the same header, as
    a read in text mode gives it) followed by exactly as many rows as the
    count of tokens that is printed, one cell per field name in every row,
    and the temporary file of the token pass is gone. *)
Theorem token_file_rows_counted fuel (s : State) s' :
  DUMP_TOKENS_ENABLED args = true →
  main fuel s = (Completed, s') →
  ∃ fieldnames rows tokens dumped,
    output_csv s' = Some ((universal_newlines <$> fieldnames) :: rows) ∧
    output_token_csv s' = Some (fieldnames :: tokens) ∧
    Forall (λ r, length r = length fieldnames) tokens ∧
    Z.of_nat (length tokens) = dumped ∧
    temp_token s' = None ∧
    "Tokenization completed. Total tokens dumped: " +:+ pretty dumped ∈ stdout s'.
Proof.
  intros Hd Hm. unfold main in Hm. rewrite Hd in Hm.
  destruct (export fuel s) as [[e|fs] s1] eqn:Ee.
  { injection Hm as -> _. by apply export_stops in Ee. }
  pose proof Ee as Hpub. apply export_published in Hpub
    as (total & s01 & s02 & cursor & d0 & sub0 & s03 & _ & Hp & _ & _).
  apply probe_schema_header in Hp as [_ [keys Hk]].
  apply derive_fieldnames_columns in Hk as (_ & Hne & _).
  destruct (export_output fuel s fs s1 Ee) as (rows & Ho).
  pose proof (tokenize_frame fuel fs s1) as Hf. rewrite Hm in Hf. cbn in Hf.
  exists fs, rows. unfold tokenize in Hm.
  destruct (collect_ids _ _ _ _) as [e|[ids jm]]; [done|].
  match type of Hm with context [waves ?f ?j ?t ?c ?d0 ?s0] =>
    destruct (waves_appends j temp_token fs
                (λ o s, process_token_chunk_appends fs _ s) f t c d0 s0)
      as (trows & Hb & Hw & Hn);
    destruct (waves f j t c d0 s0) as [[r submitted] s3] end.
  cbn [fst snd] in *. destruct r as [cursor' dumped|e|]; try done.
  cbn in Hb. rewrite Hb in Hm.
  change (text_mode (fs :: trows))
    with ((universal_newlines <$> fs) :: text_mode trows) in Hm.
  destruct (token_publish _ _ _ _) as [e|[published e]] eqn:Ep; [done|].
  destruct (OUTPUT_TOKEN_CSV args); [|done].
  destruct e as [e|]; [done|].
  apply token_publish_shape in Ep as (tokens & -> & Hl & Hpw).
  rewrite text_mode_non_empty, text_mode_length in Hl.
  2: { eapply Forall_impl; [exact Hw|]. intros r [g ->].
       destruct fs; [done|]. by cbn. }
  injection Hm as <-. exists tokens, dumped. cbn in *.
  split; [by rewrite Hf, Ho|]. split; [done|].
  split. { eapply Forall_impl; [exact Hpw|]. intros r [g ->]. by rewrite length_fmap. }
  split. { rewrite Hl. specialize (Hn cursor' dumped eq_refl). lia. }
  split; [done|]. rewrite !elem_of_app, !list_elem_of_singleton. auto.
Qed.

(** ** What a loop appends to a log *)

Section Trace.

(** A job that appends to a log entries that its offset decides. *)
Context {A : Type}.
Variable job : Z → State → job_result * State.
Variable log : State → list A.
Variable entries : Z → list A → Prop.

Hypothesis job_logs : ∀ o s,
  ∃ new, log (job o s).2 = log s ++ new ∧ entries o new.

Lemma run_jobs_logs l (s : State) :
  ∃ news, log (run_jobs job l s).2 = log s ++ concat news ∧
          Forall2 entries l news.
Proof.
  revert s. induction l as [|o l IH]; intros s; cbn [run_jobs].
  - exists []. by rewrite app_nil_r.
  - destruct (job_logs o s) as (new & Hn & He).
    destruct (job o s) as [r s1]. cbn [snd] in Hn.
    destruct (IH s1) as (news & Hns & Hes).
    destruct (run_jobs job l s1) as [rs s2]. cbn [snd] in *.
    exists (new :: news). cbn. rewrite Hns, Hn, <- app_assoc. by split; [|constructor].
Qed.

Lemma waves_logs fuel total offset dumped (s : State) :
  ∃ news,
    log (waves fuel job total offset dumped s).2 = log s ++ concat news ∧
    Forall2 entries (concat (waves fuel job total offset dumped s).1.2) news.
Proof.
  revert offset dumped s. induction fuel as [|fuel IH]; intros offset dumped s;
    cbn [waves].
  { exists []. by rewrite app_nil_r. }
  destruct (decide (offset < total)).
  2: { exists []. by rewrite app_nil_r. }
  destruct (submit_wave _ offset total) as [futures offset'].
  destruct (run_jobs_logs futures s) as (news1 & Hl1 & He1).
  destruct (run_jobs job futures s) as [results s1]. cbn [snd] in Hl1.
  destruct (collect results dumped) as [e|dumped'].
  { exists news1. cbn. by rewrite app_nil_r. }
  destruct (IH offset' dumped' s1) as (news2 & Hl2 & He2).
  destruct (waves fuel job total offset' dumped' s1) as [[r submitted] s2].
  cbn [fst snd] in *. exists (news1 ++ news2).
  rewrite Hl2, Hl1, concat_app, <- app_assoc. split; [done|]. by apply Forall2_app.
Qed.

End Trace.

(** ** The requests of the scan *)

Lemma replicate_budget (reqs : Z → Request) offsets (news : list (list Request)) :
  Forall2 (λ o new, ∃ n, (1 ≤ n ≤ 3)%nat ∧ new = replicate n (reqs o)) offsets news →
  (length offsets ≤ length (concat news) ≤ 3 * length offsets)%nat.
Proof.
  induction 1 as [|o new offsets news (n & Hn & ->) _ IH]; cbn; [lia|].
  rewrite length_app, length_replicate. lia.
Qed.

(** X4: the requests that the scan loop adds are, up to their order, one to
    three GETs of the URL of the offset of each submitted chunk; so the loop
    sends at least one and at most three requests per submitted chunk, and
    no request of any other kind. *)
Theorem scan_request_budget fuel fieldnames total (s : State) :
  let offsets := concat (scan fuel fieldnames (JInt total) s).1.2 in
  let s' := (scan fuel fieldnames (JInt total) s).2 in
  ∃ added news,
    http_log s' = http_log s ++ added ∧
    added ≡ₚ concat news ∧
    Forall2 (λ o new, ∃ n, (1 ≤ n ≤ 3)%nat ∧
                           new = replicate n (mkRequest GET (scan_url o) None))
            offsets news ∧
    (length offsets ≤ length added ≤ 3 * length offsets)%nat.
Proof.
  cbv zeta. cbn [scan].
  destruct (waves_logs (process_chunk fieldnames) http_log
              (λ o new, ∃ n, (1 ≤ n ≤ 3)%nat ∧
                             new = replicate n (mkRequest GET (scan_url o) None))
              (λ o s, ltac:(destruct (scan_request_spec fieldnames o s)
                              as [(n & ? & ?) _]; eauto))
              fuel total 0 0 s) as (news & Hl & He).
  exists (concat news), news. split; [done|]. split; [done|]. split; [done|].
  by apply (replicate_budget (λ o, mkRequest GET (scan_url o) None)).
Qed.

(** ** The logs are only appended to *)

Lemma grows_refl (s : State) : grows s s.
Proof. by split. Qed.

Lemma grows_trans (s1 s2 s3 : State) : grows s1 s2 → grows s2 s3 → grows s1 s3.
Proof. intros [? ?] [? ?]. split; by etrans. Qed.

Lemma grows_print m (s s1 : State) : grows s s1 → grows s (print m s1).
Proof. intros [? ?]. split; [done|]. cbn. by apply prefix_app_r. Qed.

Lemma grows_log_error m (s s1 : State) : grows s s1 → grows s (log_error m s1).
Proof. intros [? ?]. split; [|done]. cbn. by apply prefix_app_r. Qed.

Lemma grows_fatal {A} m (s s1 : State) : grows s s1 → grows s (@fatal A m s1).2.
Proof. intros H. by apply grows_print, grows_log_error. Qed.

Lemma make_api_call_grows req (s : State) : grows s (make_api_call req s).2.
Proof.
  destruct (make_api_call_effects req s) as (Ho & _ & _ & _ & _ & new & Hl & _).
  split; [rewrite Hl; by apply prefix_app_r|by rewrite Ho].
Qed.

Lemma process_chunk_grows fieldnames o (s : State) :
  grows s (process_chunk fieldnames o s).2.
Proof.
  unfold process_chunk.
  pose proof (make_api_call_grows (mkRequest GET (scan_url o) None) s) as H.
  destruct (make_api_call _ s) as [r s1]. cbn [snd] in H.
  destruct (ok200 r) as [r'|]; [|by apply grows_print, grows_log_error].
  destruct (json r'); [|done].
  by destruct (write_scan_rows _ _) as [written [e|]].
Qed.

Lemma process_token_chunk_grows fieldnames ids (s : State) :
  grows s (process_token_chunk fieldnames ids s).2.
Proof.
  unfold process_token_chunk.
  pose proof (make_api_call_grows (mkRequest GET (token_url ids) None) s) as H.
  destruct (make_api_call _ s) as [r s1]. cbn [snd] in H.
  destruct (ok200 r) as [r'|]; [|by apply grows_print, grows_log_error].
  destruct (json r'); [|done].
  by destruct (write_token_rows _ _) as [written [e|]].
Qed.

Lemma waves_grows (job : Z → State → job_result * State) :
  (∀ o s, grows s (job o s).2) →
  ∀ fuel total offset dumped s, grows s (waves fuel job total offset dumped s).2.
Proof.
  intros Hjob fuel total offset dumped s. split.
  - destruct (waves_logs job error_log (λ _ _, True)
                (λ o s, ltac:(destruct (Hjob o s) as [[new ->] _]; eauto))
                fuel total offset dumped s) as (news & -> & _).
    by apply prefix_app_r.
  - destruct (waves_logs job stdout (λ _ _, True)
                (λ o s, ltac:(destruct (Hjob o s) as [_ [new ->]]; eauto))
                fuel total offset dumped s) as (news & -> & _).
    by apply prefix_app_r.
Qed.

Lemma count_records_grows (s : State) : grows s (count_records s).2.
Proof.
  unfold count_records. pose proof (make_api_call_grows count_request s) as H.
  destruct (make_api_call _ s) as [r s1]. cbn [snd] in H.
  destruct (ok200 r) as [r'|]; [|by apply grows_fatal].
  destruct (json r') as [b|]; [|done].
  destruct (records b) as [[|rec recs]|]; try done.
  destruct (fields rec) as [flds|]; [|done].
  destruct (py_dict flds !! count_star); [|done]. by apply grows_print.
Qed.

Lemma probe_schema_grows (s : State) : grows s (probe_schema s).2.
Proof.
  rewrite probe_schema_unfold.
  assert (grows s (probe s).2) as H.
  { unfold probe. by destruct (make_api_call_grows (mkRequest GET (scan_url 0) None)
                                 (set_temp_output (Some [[]]) s)). }
  destruct (ok200 (probe s).1) as [r'|]; [|by apply grows_fatal].
  destruct (json r') as [b|]; [|done].
  destruct (records b) as [[|rec recs]|]; try by apply grows_fatal.
  destruct (fields rec) as [flds|]; [|done].
  destruct (derive_fieldnames _ _); [|by apply grows_fatal].
  cbn. destruct H as [? ?]. split; [done|]. cbn. by apply prefix_app_r.
Qed.

Lemma export_grows fuel (s : State) : grows s (export fuel s).2.
Proof.
  unfold export. pose proof (count_records_grows s) as H1.
  destruct (count_records s) as [[e|total] s1]; [done|]. cbn [snd] in H1.
  pose proof (probe_schema_grows s1) as H2.
  destruct (probe_schema s1) as [[e|fs] s2]; cbn [snd] in H2; [by eapply grows_trans|].
  assert (grows s2 (scan fuel fs total s2).2) as H3.
  { unfold scan. destruct total; try apply grows_refl.
    apply waves_grows. intros. apply process_chunk_grows. }
  destruct (scan fuel fs total s2) as [[r submitted] s3]. cbn [snd] in H3.
  assert (grows s s3) as H by (eapply grows_trans; [|exact H3]; by eapply grows_trans).
  destruct r; try done. cbn. unfold publish. by apply grows_print, grows_print.
Qed.

Lemma tokenize_grows fuel fieldnames (s : State) : grows s (tokenize fuel fieldnames s).2.
Proof.
  unfold tokenize.
  destruct (collect_ids _ _ _ _) as [e|[ids jm]]; [apply grows_refl|].
  match goal with |- context [waves ?f ?j ?t ?c ?d ?s0] =>
    pose proof (waves_grows j (λ o s, process_token_chunk_grows fieldnames _ s)
                  f t c d s0) as Hw;
    assert (grows s s0) as H0 by (apply grows_print, grows_refl);
    destruct (waves f j t c d s0) as [[r submitted] s3] end.
  cbn [snd] in Hw. assert (grows s s3) as H by (by eapply grows_trans).
  destruct r; try done.
  destruct (token_publish _ _ _ _) as [e|[published e]]; [done|].
  destruct (OUTPUT_TOKEN_CSV args); [|done].
  destruct e; [done|]. cbn. by apply grows_print, grows_print.
Qed.

(** X5: the run never rewrites or drops what the error log and the output
    held: whatever the service answers and however the run ends, the error
    log and the printed lines at the end start with those at the start. *)
Theorem logs_append_only fuel (s : State) :
  error_log s `prefix_of` error_log (main fuel s).2 ∧
  stdout s `prefix_of` stdout (main fuel s).2.
Proof.
  change (grows s (main fuel s).2). unfold main.
  pose proof (export_grows fuel s) as H.
  destruct (export fuel s) as [[e|fs] s1]; cbn [snd] in H; [done|].
  destruct (DUMP_TOKENS_ENABLED args); [|done].
  eapply grows_trans; [exact H|]. apply tokenize_grows.
Qed.

(** ** Where the run exits *)




(** X7: with --dump_tokens and no --output_token_data the run cannot
    complete: the token file is never created, whatever the service answers,
    while the output file that the export published stays as it is. *)
Theorem dump_tokens_needs_output_path fuel (s : State) :
  DUMP_TOKENS_ENABLED args = true →
  OUTPUT_TOKEN_CSV args = None →
  (main fuel s).1 ≠ Completed ∧
  output_token_csv (main fuel s).2 = output_token_csv s ∧
  output_csv (main fuel s).2 = output_csv (export fuel s).2.
Proof.
  intros Hd Hp. unfold main. rewrite Hd.
  assert (output_token_csv (export fuel s).2 = output_token_csv s) as Ht.
  { unfold export. destruct (count_records_frame s) as [_ H1].
    destruct (count_records s) as [[e|total] s1]; [done|]. cbn [snd] in H1.
    destruct (probe_schema_frame s1) as [_ H2].
    destruct (probe_schema s1) as [[e|fs] s2]; cbn [fst snd] in *; [congruence|].
    destruct (scan_frame fuel fs total s2) as [_ H3].
    destruct (scan fuel fs total s2) as [[r submitted] s3]. cbn [snd] in H3.
    destruct r; cbn in *; congruence. }
  destruct (export fuel s) as [[e|fs] s1] eqn:Ee; cbn [fst snd] in *.
  { split; [by eapply export_stops|]. by split. }
  pose proof (tokenize_frame fuel fs s1) as Ho. unfold tokenize in *.
  destruct (collect_ids _ _ _ _) as [e|[ids jm]]; [by split|].
  match goal with |- context [waves ?f ?j ?t ?c ?d ?s0] =>
    pose proof (waves_frame output_token_csv j
      (λ x y, proj1 (proj2 (process_token_chunk_frame fs _ y))) f t c d s0) as Hw;
    destruct (waves f j t c d s0) as [[r submitted] s3] end.
  cbn [snd] in Hw. cbn in Hw. rewrite Hp in *.
  destruct r; cbn [fst snd loop_exit] in *;
    try (split; [done|]; split; [congruence|done]).
  destruct (token_publish _ _ _ _) as [e|[published e]]; cbn [fst snd] in *;
    (split; [done|]; split; [congruence|done]).
Qed.

(** ** The batches of the token pass *)

Lemma py_slice_spec {A} (l : list A) i j :
  0 ≤ i ≤ j → j ≤ Z.of_nat (length l) →
  py_slice l i j = take (Z.to_nat (j - i)) (drop (Z.to_nat i) l).
Proof.
  intros Hi Hj. unfold py_slice, clip.
  rewrite !decide_False by lia. do 2 f_equal; lia.
Qed.

Section TokenBatches.

Let cs := ROWS_PER_CHUNK args.

Hypothesis cs_pos : 0 < cs.
Hypothesis mt_ok : args_ok args.

Variable skyflow_ids : list string.

Let total_ids := Z.of_nat (length skyflow_ids).
Let batch (offset : Z) := py_slice skyflow_ids offset (Z.min (offset + cs) total_ids).

Lemma batch_spec offset :
  0 ≤ offset < total_ids →
  batch offset =
    take (Z.to_nat (Z.min cs (total_ids - offset))) (drop (Z.to_nat offset) skyflow_ids).
Proof.
  intros Ho. unfold batch. rewrite py_slice_spec by (subst total_ids; lia).
  do 2 f_equal. lia.
Qed.

Lemma batches_cover n offset :
  0 ≤ offset → n = chunks_left cs total_ids offset →
  concat (batch <$> progression offset cs n) = drop (Z.to_nat offset) skyflow_ids.
Proof.
  intros Ho Hn. revert offset Ho Hn. induction n as [|n IH]; intros offset Ho Hn.
  - cbn. symmetry. apply drop_ge.
    destruct (decide (offset < total_ids)) as [H|H]; [|subst total_ids; lia].
    pose proof (chunks_left_pos cs_pos total_ids offset H). fold cs in H0. lia.
  - assert (offset < total_ids) as Hlt.
    { destruct (decide (offset < total_ids)); [done|].
      rewrite (chunks_left_done cs_pos) in Hn by lia. done. }
    rewrite (chunks_left_step cs_pos) in Hn by done. fold cs in Hn.
    cbn [progression fmap list_fmap concat]. rewrite IH by lia.
    rewrite batch_spec by lia.
    destruct (decide (cs ≤ total_ids - offset)) as [Hfull|Hlast].
    + rewrite Z.min_l by lia.
      replace (Z.to_nat (offset + cs)) with (Z.to_nat offset + Z.to_nat cs)%nat by lia.
      rewrite <- drop_drop. apply take_drop.
    + rewrite Z.min_r by lia.
      rewrite (drop_ge _ (Z.to_nat (offset + cs))) by (subst total_ids; lia).
      rewrite app_nil_r. apply take_ge. rewrite length_drop. subst total_ids. lia.
Qed.

Lemma batch_size offset :
  0 ≤ offset < total_ids →
  (0 < length (batch offset))%nat ∧ Z.of_nat (length (batch offset)) ≤ cs.
Proof.
  intros Ho. rewrite batch_spec by done. rewrite length_take, length_drop.
  subst total_ids. lia.
Qed.

(** X8: the token loop asks for the identifiers batch after batch: the
    batches submitted are non-empty slices of at most rows_per_call
    identifiers and, put end to end in the order of submission, they are a
    prefix of the identifiers of the dump, and all of them, in order and each
    once, when the loop drains. *)
Theorem token_batches_cover fieldnames fuel (s : State) :
  (chunks_left cs total_ids 0 < fuel)%nat →
  let run := waves fuel (token_job fieldnames skyflow_ids) total_ids 0 0 s in
  let batches := batch <$> concat run.1.2 in
  run.1.1 ≠ OutOfFuel ∧
  (∀ o, token_job fieldnames skyflow_ids o = process_token_chunk fieldnames (batch o)) ∧
  Forall (λ b, (0 < length b)%nat ∧ Z.of_nat (length b) ≤ cs) batches ∧
  concat batches `prefix_of` skyflow_ids ∧
  (∀ cursor dumped, run.1.1 = Drained cursor dumped → concat batches = skyflow_ids).
Proof.
  intros Hf. cbv zeta.
  pose proof (waves_schedule cs_pos mt_ok (token_job fieldnames skyflow_ids)
                fuel total_ids 0 0 s Hf) as H. cbv zeta in H.
  destruct (waves fuel _ total_ids 0 0 s) as [[r submitted] s']. cbn [fst snd].
  destruct H as [_ Hr].
  pose proof (batches_cover (chunks_left cs total_ids 0) 0 ltac:(lia) eq_refl) as Hc.
  rewrite drop_0 in Hc.
  assert (concat submitted `prefix_of` progression 0 cs (chunks_left cs total_ids 0))
    as [rest Hp].
  { destruct r; [by destruct Hr as [-> _]|by destruct Hr|done]. }
  split; [by destruct r|]. split; [done|]. split; [|split].
  - apply Forall_fmap, Forall_forall. intros o Ho. apply batch_size.
    assert (o ∈ progression 0 cs (chunks_left cs total_ids 0)) as Hin
      by (rewrite Hp; apply elem_of_app; by left).
    apply list_elem_of_lookup in Hin as [k Hk].
    apply progression_lookup in Hk as [Hk ->].
    apply (chunks_left_lt cs_pos) in Hk. lia.
  - rewrite <- Hc, Hp, fmap_app, concat_app. by apply prefix_app_r.
  - intros cursor dumped ->. destruct Hr as [-> _]. exact Hc.
Qed.

End TokenBatches.


(** ** The requester, in general *)

(** X10: a call sends the request one to three times and sleeps between two
    attempts only, 1 then 2 time units; it gives a response back exactly
    when fewer than three attempts failed, and that response never has a
    status from 400 to 599; when it returns a response it has written
    nothing to the error log. *)
Theorem make_api_call_shape req (s : State) :
  let failures := length (failed_attempts 3 req (net s)) in
  let n := (failures `min` 2 + 1)%nat in
  let s' := (make_api_call req s).2 in
  http_log s' = http_log s ++ replicate n req ∧
  slept s' = slept s ++ take (n - 1) [1; 2] ∧
  ((failures < 3)%nat ↔ is_Some (make_api_call req s).1) ∧
  (∀ r, (make_api_call req s).1 = Some r →
        ¬ 400 ≤ status_code r < 600 ∧ error_log s' = error_log s).
Proof.
  cbv zeta. rewrite make_api_call_unfold. cbv zeta. cbn [failed_attempts].
  assert (∀ w r, first_try req w = inr r → ¬ 400 ≤ status_code r < 600) as Hst.
  { intros w r. unfold first_try, attempt_result.
    destruct (http req w).1 as [r0|e]; [|done]. unfold raise_for_status.
    repeat case_decide; try done. intros [= <-]. lia. }
  destruct (first_try req (net s)) as [e1|r1] eqn:E1; cbn.
  2: { rewrite !app_nil_r. split; [done|]. split; [done|].
       split; [split; [eauto|intros; lia]|].
       intros r [= <-]. split; [by eapply Hst|done]. }
  destruct (first_try req (http req (net s)).2) as [e2|r2] eqn:E2; cbn.
  2: { rewrite !app_nil_r. split; [done|]. split; [done|].
       split; [split; [eauto|intros; lia]|].
       intros r [= <-]. split; [by eapply Hst|done]. }
  destruct (first_try req (http req (http req (net s)).2).2) as [e3|r3] eqn:E3; cbn.
  2: { rewrite !app_nil_r. split; [done|]. split; [done|].
       split; [split; [eauto|intros; lia]|].
       intros r [= <-]. split; [by eapply Hst|done]. }
  split; [done|]. split; [done|]. split; [|done].
  split; [intros; lia|by intros [? ?]].
Qed.

(** ** An answer to the count query that cannot be read *)

(** X11: when the count step ends with an exception, the count query had
    been answered with status 200: the exception comes from reading the
    body, never from the transport or from an error status.  The run then
    ends with that exception, a traceback and not an exit(1): nothing is
    written to the error log, nothing is printed, no request for a page is
    sent and no file is created. *)
Theorem count_unreadable fuel (s : State) e s1 :
  count_records s = (inl (Uncaught e), s1) →
  main fuel s = (Uncaught e, s1) ∧
  (∃ r, (make_api_call count_request s).1 = Some r ∧ status_code r = 200) ∧
  (∃ n, (1 ≤ n ≤ 3)%nat ∧ http_log s1 = http_log s ++ replicate n count_request) ∧
  error_log s1 = error_log s ∧ stdout s1 = stdout s ∧
  temp_output s1 = temp_output s ∧ output_csv s1 = output_csv s.
Proof.
  intros Hc. split. { unfold main, export. by rewrite Hc. }
  unfold count_records in Hc.
  destruct (make_api_call_requests count_request s) as (n & Hn & Hlog).
  destruct (make_api_call_effects count_request s)
    as (Hout & Ht & Ho & _ & _ & new & Hl & _ & Hsome).
  destruct (make_api_call count_request s) as [r s0]. cbn [fst snd] in *.
  assert (∀ r', ok200 r = Some r' → r = Some r' ∧ status_code r' = 200) as H200.
  { intros r'. unfold ok200. destruct r as [r0|]; [|done].
    case_decide; [|done]. by intros [= <-]. }
  destruct (ok200 r) as [r'|]; [|done]. destruct (H200 r' eq_refl) as [-> Hst].
  rewrite Hsome, app_nil_r in Hl by done.
  assert (s0 = s1 → (∃ r, Some r' = Some r ∧ status_code r = 200) ∧
            (∃ n, (1 ≤ n ≤ 3)%nat ∧ http_log s1 = http_log s ++ replicate n count_request) ∧
            error_log s1 = error_log s ∧ stdout s1 = stdout s ∧
            temp_output s1 = temp_output s ∧ output_csv s1 = output_csv s) as Hrest.
  { intros <-. split; [by exists r'|]. split; [by exists n|]. done. }
  destruct (json r') as [b|].
  2: { injection Hc as <- ->. auto. }
  destruct (records b) as [[|rec recs]|].
  1,3: injection Hc as <- ->; auto.
  destruct (fields rec) as [flds|].
  2: { injection Hc as <- ->. auto. }
  destruct (py_dict flds !! count_star); [done|].
  injection Hc as <- ->. auto.
Qed.

(** ** An answer that is neither an error nor a 200 *)

(** X12: a first answer to a page whose status is neither 200 nor in
    400..599 (a 204 or a redirect that is not followed) is not retried: the
    request is sent once, nothing is slept, and the chunk is given up with
    count 0, one entry in the error log carrying the offset and the text of
    the answer, the same line printed, and no row appended. *)
Theorem process_chunk_other_status fieldnames offset (s : State) r w :
  http (mkRequest GET (scan_url offset) None) (net s) = (Resp r, w) →
  status_code r ≠ 200 → ¬ 400 ≤ status_code r < 600 →
  let error_message :=
    "Error occurred at offset " +:+ pretty offset +:+ ": " +:+ text r in
  process_chunk fieldnames offset s =
  (inr 0,
   mkState w (http_log s ++ [mkRequest GET (scan_url offset) None]) (slept s)
     (error_log s ++ [error_message]) (stdout s ++ [error_message])
     (temp_output s) (output_csv s) (temp_token s) (output_token_csv s)).
Proof.
  intros Hh H200 Herr. cbv zeta. unfold process_chunk.
  rewrite make_api_call_unfold. cbv zeta. unfold first_try. rewrite Hh. cbn [fst snd].
  unfold attempt_result, raise_for_status.
  rewrite !decide_False by lia. cbn. rewrite decide_False by done. cbn.
  by rewrite !app_nil_r.
Qed.

(** ** What the chunk fetchers can raise *)

(** X13: a chunk fetcher raises only after its request has been answered
    with status 200: a transport error or an error status never raises, the
    chunk is given up instead.  When a fetcher raises it has written nothing
    to the error log and printed nothing. *)
Theorem fetchers_exceptions fieldnames offset ids (s : State) e :
  ((process_chunk fieldnames offset s).1 = inl e →
     (∃ r, (make_api_call (mkRequest GET (scan_url offset) None) s).1 = Some r ∧
           status_code r = 200) ∧
     error_log (process_chunk fieldnames offset s).2 = error_log s ∧
     stdout (process_chunk fieldnames offset s).2 = stdout s) ∧
  ((process_token_chunk fieldnames ids s).1 = inl e →
     (∃ r, (make_api_call (mkRequest GET (token_url ids) None) s).1 = Some r ∧
           status_code r = 200) ∧
     error_log (process_token_chunk fieldnames ids s).2 = error_log s ∧
     stdout (process_token_chunk fieldnames ids s).2 = stdout s).
Proof.
  assert (∀ r r', ok200 r = Some r' → r = Some r' ∧ status_code r' = 200) as H200.
  { intros r r'. unfold ok200. destruct r as [r0|]; [|done].
    case_decide; [|done]. by intros [= <-]. }
  split.
  - unfold process_chunk.
    destruct (make_api_call_effects (mkRequest GET (scan_url offset) None) s)
      as (Hout & _ & _ & _ & _ & new & Hl & _ & Hsome).
    destruct (make_api_call _ s) as [r s1]. cbn [fst snd] in *.
    destruct (ok200 r) as [r'|] eqn:Eok; [|done].
    destruct (H200 r r' Eok) as [-> Hst].
    rewrite Hsome, app_nil_r in Hl by done.
    destruct (json r') as [b|].
    2: { intros [= <-]. split; [by exists r'|done]. }
    destruct (write_scan_rows fieldnames _) as [written [e'|]]; [|done].
    intros [= <-]. split; [by exists r'|done].
  - unfold process_token_chunk.
    destruct (make_api_call_effects (mkRequest GET (token_url ids) None) s)
      as (Hout & _ & _ & Ht & _ & new & Hl & _ & Hsome).
    destruct (make_api_call _ s) as [r s1]. cbn [fst snd] in *.
    destruct (ok200 r) as [r'|] eqn:Eok; [|done].
    destruct (H200 r r' Eok) as [-> Hst].
    rewrite Hsome, app_nil_r in Hl by done.
    destruct (json r') as [b|].
    2: { intros [= <-]. split; [by exists r'|done]. }
    by rewrite write_token_rows_total.
Qed.

(** ** The field names, again *)

Lemma filter_twice {A} (P : A → Prop) `{∀ x, Decision (P x)} (l : list A) :
  filter P (filter P l) = filter P l.
Proof.
  induction l as [|x l IH]; [done|].
  destruct (decide (P x)).
  - rewrite !filter_cons_True by done. by rewrite IH.
  - by rewrite filter_cons_False.
Qed.

(** X14: the field names are a fixed point of their derivation: derived
    again from themselves, with the same unique column, they do not change. *)
Theorem derive_fieldnames_stable unique keys fieldnames :
  derive_fieldnames unique keys = Some fieldnames →
  derive_fieldnames unique fieldnames = Some fieldnames.
Proof.
  unfold derive_fieldnames. destruct (truthy unique) as [u|].
  - case_decide; [|done]. intros [= <-]. rewrite decide_True by left.
    cbn [app]. rewrite filter_cons_False by (intros Hn; apply Hn; left).
    rewrite filter_cons_False by (intros Hn; apply Hn; right; left).
    by rewrite filter_twice.
  - intros [= <-]. cbn [app]. rewrite filter_cons_False by (by intros Hn).
    by rewrite filter_twice.
Qed.

(** X15: when the keys of the first record are distinct, the field names
    are distinct unless the unique column asked for is skyflow_id itself: in
    that case skyflow_id is the name of the first two columns. *)
Theorem fieldnames_distinct unique keys fieldnames :
  derive_fieldnames unique keys = Some fieldnames →
  NoDup keys →
  (NoDup fieldnames ↔ truthy unique ≠ Some "skyflow_id") ∧
  (truthy unique = Some "skyflow_id" →
   take 2 fieldnames = ["skyflow_id"; "skyflow_id"]).
Proof.
  intros Hd Hk. split; [split|].
  - intros Hn Hu. unfold derive_fieldnames in Hd. rewrite Hu in Hd.
    case_decide; [|done]. injection Hd as <-. cbn in Hn.
    apply NoDup_cons in Hn as [Hn _]. apply Hn. left.
  - intros Hu. by eapply derive_fieldnames_NoDup.
  - intros Hu. unfold derive_fieldnames in Hd. rewrite Hu in Hd.
    case_decide; [|done]. by injection Hd as <-.
Qed.

(** ** The identifiers the token pass reads *)

Lemma collect_ids_no_unique unique fieldnames rows skyflow_ids
    (additional_fields : gmap string string) :
  truthy unique = None → "skyflow_id" ∈ fieldnames →
  Forall (written_with fieldnames) rows →
  collect_ids unique ((λ r, py_dict (zip fieldnames r)) <$> rows)
    skyflow_ids additional_fields =
  inr (skyflow_ids ++ ((λ r, default "" (cell fieldnames "skyflow_id" r)) <$> rows),
       additional_fields).
Proof.
  intros Hu Hsk Hrows. revert skyflow_ids.
  induction Hrows as [|r rows [g ->] _ IH]; intros ids; cbn.
  - by rewrite app_nil_r.
  - rewrite zip_tabulate, py_dict_tabulate, decide_True by done. rewrite Hu.
    rewrite IH. rewrite cell_tabulate, decide_True by done. cbn.
    by rewrite <- app_assoc.
Qed.

(** X16: from a dump written with field names that hold skyflow_id (and the
    unique column, when there is one) the token pass reads one identifier
    per row, in the order of the file, without raising; the keys of the map
    it builds are identifiers of the dump, and without a unique column the
    map stays empty. *)
Theorem collect_ids_reads_every_row fieldnames rows :
  "skyflow_id" ∈ fieldnames →
  (∀ u, truthy (UNIQUE_ID_COLUMN args) = Some u → u ∈ fieldnames) →
  Forall (written_with fieldnames) rows →
  ∃ additional_fields,
    collect_ids (UNIQUE_ID_COLUMN args) (dict_reader (fieldnames :: rows)) [] ∅ =
      inr ((λ r, default "" (cell fieldnames "skyflow_id" r)) <$> rows,
           additional_fields) ∧
    (∀ i, is_Some (additional_fields !! i) →
          ∃ r, r ∈ rows ∧ cell fieldnames "skyflow_id" r = Some i) ∧
    (truthy (UNIQUE_ID_COLUMN args) = None → additional_fields = ∅).
Proof.
  intros Hsk Hu Hrows.
  assert (fieldnames ≠ []) as Hne by (intros ->; by apply elem_of_nil in Hsk).
  rewrite dict_reader_written by done.
  destruct (truthy (UNIQUE_ID_COLUMN args)) as [u|] eqn:Et.
  - assert (UNIQUE_ID_COLUMN args = Some u ∧ u ≠ "") as [Eu Hu0].
    { unfold truthy in Et. destruct (UNIQUE_ID_COLUMN args) as [c|]; [|done].
      case_decide; [done|]. by injection Et as ->. }
    rewrite Eu. rewrite (collect_ids_written fieldnames u Hu0 (Hu u eq_refl) Hsk) by done.
    eexists. split.
    { cbn [app]. do 2 f_equal. unfold join_pairs. by rewrite <- list_fmap_compose. }
    split; [|done]. fold (py_dict (join_pairs fieldnames u rows)).
    intros i [v Hv%py_dict_lookup_Some]. unfold join_pairs in Hv.
    apply list_elem_of_fmap in Hv as (r & [= -> ->] & Hr). exists r. split; [done|].
    rewrite Forall_forall in Hrows. destruct (Hrows r Hr) as [g ->].
    by rewrite cell_tabulate, decide_True.
  - exists ∅. split; [|split; [by intros i [v Hv]|done]].
    by rewrite collect_ids_no_unique.
Qed.

(** ** The run ends *)

Section Termination.

Let cs := ROWS_PER_CHUNK args.

Hypothesis cs_pos : 0 < cs.
Hypothesis mt_ok : args_ok args.

(** Beyond the number of chunks, the fuel does not matter. *)
Lemma waves_fuel (job : Z → State → job_result * State) total fuel1 fuel2
    offset dumped (s : State) :
  (chunks_left cs total offset < fuel1)%nat →
  (chunks_left cs total offset < fuel2)%nat →
  waves fuel1 job total offset dumped s = waves fuel2 job total offset dumped s.
Proof.
  revert fuel2 offset dumped s.
  induction fuel1 as [|fuel1 IH]; intros fuel2 offset dumped s H1 H2; [lia|].
  destruct fuel2 as [|fuel2]; [lia|]. cbn [waves].
  destruct (decide (offset < total)) as [Hlt|]; [|done].
  rewrite (submit_wave_spec cs_pos). rewrite length_seqZ.
  set (m := (Z.to_nat (MAX_PARALLEL_TASKS args) `min` chunks_left (ROWS_PER_CHUNK args) total offset)%nat).
  assert (1 ≤ m ≤ chunks_left cs total offset)%nat as Hm.
  { pose proof (chunks_left_pos cs_pos total offset Hlt). unfold args_ok in mt_ok.
    subst m cs. lia. }
  destruct (run_jobs job _ s) as [results s1].
  destruct (collect results dumped) as [e|dumped']; [done|].
  rewrite (IH fuel2); [done| |];
    rewrite (chunks_left_after cs_pos) by (subst cs; lia); subst cs; lia.
Qed.

Lemma waves_enough (job : Z → State → job_result * State) total fuel
    offset dumped (s : State) :
  (chunks_left cs total offset < fuel)%nat →
  (waves fuel job total offset dumped s).1.1 ≠ OutOfFuel.
Proof.
  intros Hf. pose proof (waves_schedule cs_pos mt_ok job fuel total offset dumped s Hf) as H.
  cbv zeta in H. destruct (waves fuel job total offset dumped s) as [[r ?] ?].
  destruct H as [_ H]. by destruct r.
Qed.

(** The chunks of the scan that the count of the service asks for. *)
Let scan_chunks (s : State) : nat :=
  match (count_records s).1 with
  | inr (JInt total) => chunks_left cs total 0
  | _ => O
  end.

Lemma export_fuel (s : State) fuel1 fuel2 :
  (scan_chunks s < fuel1)%nat → (scan_chunks s < fuel2)%nat →
  export fuel1 s = export fuel2 s ∧ (export fuel1 s).1 ≠ inl Diverges.
Proof.
  unfold scan_chunks, export.
  destruct (count_records s) as [[e|total] s1] eqn:Ec; cbn [fst].
  { intros _ _. split; [done|]. intros [= ->].
    unfold count_records in Ec. destruct (make_api_call _ s) as [r s0].
    destruct (ok200 r) as [r'|]; [|done].
    destruct (json r') as [b|]; [|done].
    destruct (records b) as [[|rec recs]|]; try done.
    destruct (fields rec) as [flds|]; [|done].
    by destruct (py_dict flds !! count_star). }
  destruct (probe_schema s1) as [[e|fs] s2] eqn:Ep.
  { intros _ _. split; [done|]. intros [= ->]. rewrite probe_schema_unfold in Ep.
    destruct (ok200 (probe s1).1) as [r'|]; [|done].
    destruct (json r') as [b|]; [|done].
    destruct (records b) as [[|rec recs]|]; try done.
    destruct (fields rec) as [flds|]; [|done].
    by destruct (derive_fieldnames _ _). }
  destruct total as [?|total|]; cbn [scan]; try by intros _ _.
  intros H1 H2. rewrite (waves_fuel _ total fuel1 fuel2) by done.
  split; [done|].
  pose proof (waves_enough (process_chunk fs) total fuel2 0 0 s2 H2) as Hn.
  destruct (waves fuel2 _ total 0 0 s2) as [[r submitted] s3].
  by destruct r.
Qed.

(** The batches of the token pass, for the identifiers of a dump. *)
Let token_chunks (s : State) : nat :=
  match collect_ids (UNIQUE_ID_COLUMN args)
          (dict_reader (text_mode (default [] (output_csv s)))) [] ∅ with
  | inr (skyflow_ids, _) => chunks_left cs (Z.of_nat (length skyflow_ids)) 0
  | inl _ => O
  end.

Lemma tokenize_fuel fieldnames (s : State) fuel1 fuel2 :
  (token_chunks s < fuel1)%nat → (token_chunks s < fuel2)%nat →
  tokenize fuel1 fieldnames s = tokenize fuel2 fieldnames s ∧
  (tokenize fuel1 fieldnames s).1 ≠ Diverges.
Proof.
  unfold token_chunks, tokenize.
  destruct (collect_ids _ _ _ _) as [e|[ids jm]]; [by intros _ _|].
  intros H1 H2. rewrite (waves_fuel _ _ fuel1 fuel2) by done. split; [done|].
  match goal with |- context [waves fuel2 ?j ?t 0 0 ?s0] =>
    pose proof (waves_enough j t fuel2 0 0 s0 H2) as Hn;
    destruct (waves fuel2 j t 0 0 s0) as [[r submitted] s3] end.
  destruct r; try done.
  destruct (token_publish _ _ _ _) as [e|[published e]]; [done|].
  destruct (OUTPUT_TOKEN_CSV args); [|done]. by destruct e.
Qed.

(** X19: with a positive rows_per_call the script ends, whatever the
    service answers: there is an amount of fuel from which the run never
    stops for lack of fuel and always gives the same result, the same exit
    and the same final state. *)
Theorem main_terminates (s : State) :
  ∃ fuel0, ∀ fuel, (fuel0 ≤ fuel)%nat →
    (main fuel s).1 ≠ Diverges ∧ main fuel s = main fuel0 s.
Proof.
  set (n1 := scan_chunks s).
  set (n2 := token_chunks (export (S n1) s).2).
  exists (S (n1 `max` n2)). intros fuel Hf. unfold main.
  destruct (export_fuel s fuel (S n1) ltac:(lia) ltac:(lia)) as [-> _].
  destruct (export_fuel s (S (n1 `max` n2)) (S n1) ltac:(lia) ltac:(lia)) as [-> Hd].
  destruct (export_fuel s (S n1) (S n1) ltac:(lia) ltac:(lia)) as [_ Hd1].
  destruct (export (S n1) s) as [[e|fs] s1]; cbn [fst snd] in *.
  { split; [|done]. intros ->. by apply Hd1. }
  destruct (DUMP_TOKENS_ENABLED args); [|done].
  destruct (tokenize_fuel fs s1 fuel (S (n1 `max` n2)) ltac:(lia) ltac:(lia))
    as [-> _].
  destruct (tokenize_fuel fs s1 (S (n1 `max` n2)) (S (n1 `max` n2))
              ltac:(lia) ltac:(lia)) as [_ Hn].
  by split.
Qed.

End Termination.

(** * The chunks of a run *)

(** ** The rows of known records *)

Lemma foldl_insert_keys {V} (pairs : list (string * V)) (m : gmap string V) k :
  is_Some (foldl (λ m kv, <[kv.1 := kv.2]> m) m pairs !! k) →
  is_Some (m !! k) ∨ k ∈ pairs.*1.
Proof.
  revert m. induction pairs as [|[k' v] pairs IH]; intros m; cbn [foldl fmap list_fmap].
  - by left.
  - intros H. apply IH in H as [H|H]; [|right; by right].
    cbn in H. destruct (decide (k' = k)) as [->|Hne]; [right; left|].
    rewrite lookup_insert_ne in H by done. by left.
Qed.

Lemma py_dict_keys {V} (pairs : list (string * V)) k :
  is_Some (py_dict pairs !! k) → k ∈ pairs.*1.
Proof.
  intros H. apply foldl_insert_keys in H as [H|H]; [|done].
  rewrite lookup_empty in H. by destruct H.
Qed.

Lemma foldl_insert_fmap {V V'} (g : V → V') (pairs : list (string * V))
    (m : gmap string V) :
  foldl (λ m kv, <[kv.1 := kv.2]> m) (g <$> m) (prod_map id g <$> pairs) =
  g <$> foldl (λ m kv, <[kv.1 := kv.2]> m) m pairs.
Proof.
  revert m. induction pairs as [|[k v] pairs IH]; intros m; cbn; [done|].
  by rewrite <- IH, fmap_insert.
Qed.

Lemma py_dict_fmap {V V'} (g : V → V') (pairs : list (string * V)) k :
  py_dict (prod_map id g <$> pairs) !! k = g <$> (py_dict pairs !! k).
Proof.
  unfold py_dict. rewrite <- lookup_fmap, <- foldl_insert_fmap. by rewrite fmap_empty.
Qed.

(** The writer of the scan path gives a known record its row. *)
Lemma write_scan_rows_known fieldnames recs :
  Forall (known fieldnames) recs →
  write_scan_rows fieldnames recs = (row_of fieldnames <$> recs, None).
Proof.
  induction 1 as [|rec recs (flds & Hf & Hk) _ IH]; [done|].
  cbn [write_scan_rows]. rewrite Hf. unfold dict_to_list.
  rewrite decide_True.
  2: { intros k v Hv. apply Hk. rewrite <- rendered_keys.
       apply py_dict_keys. by eexists. }
  rewrite IH, fmap_cons. do 2 f_equal. unfold row_of. rewrite Hf. cbn [default].
  apply map_ext. intros f. by rewrite py_dict_fmap.
Qed.

(** ** The jobs of a run, one by one *)

Lemma starts_offsets (job : Z → State → job_result * State) l (s : State) :
  (starts job l s).*1 = l.
Proof.
  revert s. induction l as [|o l IH]; intros s; cbn; [done|]. by rewrite IH.
Qed.

(** The results of a run are those of its jobs in the states of [starts]. *)
Lemma starts_results (job : Z → State → job_result * State) l (s : State) :
  (run_jobs job l s).1 = (λ ost, (job ost.1 ost.2).1) <$> starts job l s.
Proof.
  revert s. induction l as [|o l IH]; intros s; cbn [run_jobs starts]; [done|].
  rewrite fmap_cons. cbn [fst snd].
  specialize (IH (job o s).2). destruct (job o s) as [r s1]. cbn [fst snd] in *.
  destruct (run_jobs job l s1) as [rs s2]. cbn [fst] in *. by rewrite IH.
Qed.

(** A run in which the chunks of the offsets in [lost] are given up and
    every other chunk is answered with known records. *)
Lemma run_with_losses fieldnames (page : Z → list record) (width : Z → Z)
    (lost : Z → Prop) `{∀ o, Decision (lost o)} l (s : State) :
  (∀ o st, (o, st) ∈ starts (process_chunk fieldnames) l s →
     if decide (lost o) then chunk_lost o st
     else chunk_answered o (page o) st ∧
          Z.of_nat (length (page o)) = width o ∧
          Forall (known fieldnames) (page o)) →
  let res := run_jobs (process_chunk fieldnames) l s in
  res.1 = (λ o, inr (if decide (lost o) then 0 else width o)) <$> l ∧
  default [] (temp_output res.2) =
    default [] (temp_output s) ++
    concat ((λ o, row_of fieldnames <$> page o) <$> filter (λ o, ¬ lost o) l) ∧
  output_csv res.2 = output_csv s ∧
  ∃ new out txts,
    error_log res.2 = error_log s ++ new ∧
    stdout res.2 = stdout s ++ out ∧
    filter chunk_level new =
      zip_with (λ o txt, "Error occurred at offset " +:+ pretty o +:+ ": " +:+ txt)
        (filter lost l) txts ∧
    length txts = length (filter lost l) ∧
    (filter lost l = [] → new = [] ∧ out = []).
Proof.
  revert s. induction l as [|o l IH]; intros s Hrun; cbn [run_jobs].
  - cbn. rewrite app_nil_r. repeat split. exists [], [], [].
    by rewrite !app_nil_r.
  - assert (∀ o' st, (o', st) ∈ starts (process_chunk fieldnames) l
                       (process_chunk fieldnames o s).2 →
              if decide (lost o') then chunk_lost o' st
              else chunk_answered o' (page o') st ∧
                   Z.of_nat (length (page o')) = width o' ∧
                   Forall (known fieldnames) (page o')) as Hrun'.
    { intros o' st Hin. apply Hrun. cbn [starts]. by right. }
    assert (if decide (lost o) then chunk_lost o s
            else chunk_answered o (page o) s ∧
                 Z.of_nat (length (page o)) = width o ∧
                 Forall (known fieldnames) (page o)) as Ho.
    { apply Hrun. cbn [starts]. left. }
    destruct (make_api_call_effects (mkRequest GET (scan_url o) None) s)
      as (Hso & Ht & Hc & _ & _ & new0 & Hlog & Hnew0 & Hsome).
    specialize (IH (process_chunk fieldnames o s).2 Hrun').
    destruct (decide (lost o)) as [Hl|Hl].
    + unfold chunk_lost in Ho. rewrite process_chunk_failed in * by exact Ho.
      cbv zeta in *.
      match goal with |- context [print ?m ?x] =>
        set (s2 := print m x) in *; set (msg := m) in * end.
      assert (temp_output s2 = temp_output s) as Ht2 by (by subst s2; cbn).
      assert (output_csv s2 = output_csv s) as Hc2 by (by subst s2; cbn).
      assert (error_log s2 = error_log s ++ new0 ++ [msg]) as Hl2.
      { subst s2; cbn. rewrite Hlog. by rewrite <- app_assoc. }
      assert (stdout s2 = stdout s ++ [msg]) as Ho2.
      { subst s2; cbn. by rewrite Hso. }
      cbn [snd] in IH.
      destruct (run_jobs _ l s2) as [rs s3]. cbn [fst snd] in *.
      destruct IH as (-> & Hbuf & Hout & new & out & txts & Hlog' & Hout' & Hnew & Hlen & _).
      split. { rewrite fmap_cons. by rewrite decide_True. }
      rewrite (filter_cons_False (λ o, ¬ lost o)) by (intros Hn; by apply Hn).
      rewrite (filter_cons_True lost) by done.
      split; [by rewrite Hbuf, Ht2|]. split; [by rewrite Hout|].
      exists (new0 ++ [msg] ++ new), ([msg] ++ out),
        (text_of (make_api_call (mkRequest GET (scan_url o) None) s).1 :: txts).
      split. { rewrite Hlog', Hl2. by rewrite <- !app_assoc. }
      split. { rewrite Hout', Ho2. by rewrite <- !app_assoc. }
      split.
      { rewrite filter_app, Hnew0. cbn [app]. rewrite filter_cons_True by done.
        by rewrite Hnew. }
      split; [cbn; lia|done].
    + destruct Ho as ((r & Hr & H200 & Hj) & Hlen & Hknown).
      rewrite (process_chunk_fetched _ _ _ _ _ _ Hr H200 Hj
                 (write_scan_rows_known _ _ Hknown)) in *.
      cbv zeta in *.
      match goal with |- context [set_temp_output ?f ?x] =>
        set (s2 := set_temp_output f x) in * end.
      assert (default [] (temp_output s2) =
              default [] (temp_output s) ++ (row_of fieldnames <$> page o))
        as Ht2 by (by subst s2; cbn; rewrite Ht).
      assert (output_csv s2 = output_csv s) as Hc2 by (by subst s2; cbn).
      assert (error_log s2 = error_log s) as Hl2.
      { subst s2; cbn. rewrite Hlog. rewrite Hsome by (by rewrite Hr).
        by rewrite app_nil_r. }
      assert (stdout s2 = stdout s) as Ho2 by (by subst s2; cbn).
      cbn [snd] in IH.
      destruct (run_jobs _ l s2) as [rs s3]. cbn [fst snd] in *.
      destruct IH as (-> & Hbuf & Hout & new & out & txts & Hlog' & Hout' & Hnew & Hlen' & Hnone).
      split. { rewrite fmap_cons. rewrite decide_False by done. by rewrite Hlen. }
      rewrite (filter_cons_True (λ o, ¬ lost o)) by done.
      rewrite (filter_cons_False lost) by done.
      split. { rewrite Hbuf, Ht2. cbn. by rewrite <- app_assoc. }
      split; [by rewrite Hout|].
      exists new, out, txts. split; [by rewrite Hlog', Hl2|].
      split; [by rewrite Hout', Ho2|]. done.
Qed.

(** ** The schedule *)

Section Coverage.

Let cs := ROWS_PER_CHUNK args.
Let mt := MAX_PARALLEL_TASKS args.

Hypothesis cs_pos : 0 < cs.
Hypothesis mt_ok : args_ok args.

(** C1 (amended): with a positive chunkSize the scan loop submits the
    offsets 0, chunkSize, 2*chunkSize, ... below the expected total, each
    once and in this order, in waves of at most MAX_PARALLEL_TASKS; the
    cursor moves by chunkSize per submitted chunk whatever the chunk returns,
    and the loop ends, with the cursor at or beyond the total, as soon as the
    fuel exceeds the number of chunks.  The only other way out is a job that
    raises, and then what was submitted is a prefix of the same sequence.
    Every submitted chunk is fetched: the requests that the loop sends are, up
    to their order, one to three GETs of the URL of each submitted offset,
    and no other. *)
Theorem scan_covers_each_offset_once fieldnames total (s : State) fuel :
  let n := chunks_left cs total 0 in
  (n < fuel)%nat →
  ∃ r submitted s',
    scan fuel fieldnames (JInt total) s = (r, submitted, s') ∧
    r ≠ OutOfFuel ∧
    Forall (λ wave, (1 ≤ length wave ≤ Z.to_nat mt)%nat) submitted ∧
    concat submitted `prefix_of` progression 0 cs n ∧
    NoDup (concat submitted) ∧
    (∀ (k : nat) o, concat submitted !! k = Some o →
       o = Z.of_nat k * cs ∧ 0 ≤ o < total) ∧
    (∀ e, r = Raised e →
       ∃ o s1, o ∈ concat submitted ∧ (process_chunk fieldnames o s1).1 = inl e) ∧
    (∀ cursor dumped, r = Drained cursor dumped →
       concat submitted = progression 0 cs n ∧
       cursor = Z.of_nat (length (concat submitted)) * cs ∧
       total ≤ cursor ∧
       (∀ k, 0 ≤ k → k * cs < total → k * cs ∈ concat submitted)) ∧
    (∃ added news,
       http_log s' = http_log s ++ added ∧
       added ≡ₚ concat news ∧
       Forall2 (λ o new, ∃ m, (1 ≤ m ≤ 3)%nat ∧
                              new = replicate m (mkRequest GET (scan_url o) None))
               (concat submitted) news).
Proof.
  intros n Hf. cbn [scan].
  pose proof (waves_schedule cs_pos mt_ok (process_chunk fieldnames) fuel total 0 0 s Hf)
    as H.
  destruct (waves_logs (process_chunk fieldnames) http_log
              (λ o new, ∃ m, (1 ≤ m ≤ 3)%nat ∧
                             new = replicate m (mkRequest GET (scan_url o) None))
              (λ o s, ltac:(destruct (scan_request_spec fieldnames o s)
                              as [(m & ? & ?) _]; eauto))
              fuel total 0 0 s) as (news & Hlog & Hnews).
  cbv zeta in H. fold cs mt n in H.
  destruct (waves fuel (process_chunk fieldnames) total 0 0 s) as [[r submitted] s'].
  cbn [fst snd] in Hlog, Hnews.
  destruct H as [Hw Hr]. exists r, submitted, s'. split; [done|].
  assert (concat submitted `prefix_of` progression 0 cs n) as Hp.
  { destruct r; [by destruct Hr as [-> _]|by destruct Hr|done]. }
  split; [by destruct r|]. split; [done|]. split; [done|].
  destruct Hp as [rest Hp].
  split. { pose proof (progression_NoDup cs_pos 0 n) as Hn. fold cs in Hn.
           rewrite Hp in Hn. by apply NoDup_app in Hn as [? _]. }
  split.
  { intros k o Hk.
    assert (progression 0 cs n !! k = Some o) as Hk'
      by (rewrite Hp; by apply lookup_app_l_Some).
    apply progression_lookup in Hk' as [Hlt ->].
    apply (chunks_left_lt cs_pos total 0) in Hlt. fold cs in Hlt. split; lia. }
  split. { intros e ->. by destruct Hr. }
  split.
  { intros cursor dumped ->. destruct Hr as [Hc ->]. split; [done|].
    rewrite Hc, progression_length. split; [lia|].
    split. { pose proof (chunks_left_reach cs_pos total 0) as H. fold cs n in H. lia. }
    intros k Hk0 Hk. apply list_elem_of_lookup. exists (Z.to_nat k).
    apply progression_lookup. split; [|lia].
    apply (chunks_left_lt cs_pos total 0). fold cs. lia. }
  by exists (concat news), news.
Qed.

(** ** A lost chunk, and none *)

Lemma planned_sum total n offset :
  n = chunks_left cs total offset →
  foldr Z.add 0 (planned cs total <$> progression offset cs n) = Z.max 0 (total - offset).
Proof.
  revert offset. induction n as [|n IH]; intros offset Hn.
  - cbn. destruct (decide (offset < total)) as [H|H]; [|lia].
    pose proof (chunks_left_pos cs_pos total offset H). fold cs in H0. lia.
  - assert (offset < total) as Hlt.
    { destruct (decide (offset < total)); [done|].
      rewrite (chunks_left_done cs_pos) in Hn by lia. done. }
    rewrite (chunks_left_step cs_pos) in Hn by done. fold cs in Hn.
    cbn [progression fmap list_fmap foldr]. rewrite IH by lia.
    unfold planned. lia.
Qed.

(** C5: in a run of the scan loop where the chunk at one offset of the
    schedule is given up when it is fetched, its planned width being a full
    chunkSize, and every other chunk is answered, when it is fetched, with
    its planned number of records, all with known fields, the loop still
    drains: the completed count is expectedTotal - chunkSize, the buffer
    receives the rows of the records of every other offset (up to the order
    of the chunks) and none for the lost chunk, and exactly one chunk-level
    entry, naming that offset, is written to the error log. *)
Theorem chunk_failure_isolated fieldnames total failing (page : Z → list record)
    (s : State) fuel (k : nat) :
  let run :=
    starts (process_chunk fieldnames) (progression 0 cs (chunks_left cs total 0)) s in
  failing = Z.of_nat k * cs →
  failing + cs ≤ total →
  (chunks_left cs total 0 < fuel)%nat →
  (∀ st, (failing, st) ∈ run → chunk_lost failing st) →
  (∀ o st, (o, st) ∈ run → o ≠ failing →
     chunk_answered o (page o) st ∧
     Z.of_nat (length (page o)) = planned cs total o ∧
     Forall (known fieldnames) (page o)) →
  ∃ cursor submitted s' added new txt,
    scan fuel fieldnames (JInt total) s =
      (Drained cursor (total - cs), submitted, s') ∧
    concat submitted = progression 0 cs (chunks_left cs total 0) ∧
    failing ∈ concat submitted ∧
    default [] (temp_output s') = default [] (temp_output s) ++ added ∧
    added ≡ₚ concat ((λ o, row_of fieldnames <$> page o)
                       <$> filter (λ o, o ≠ failing) (concat submitted)) ∧
    output_csv s' = output_csv s ∧
    error_log s' = error_log s ++ new ∧
    filter chunk_level new =
      ["Error occurred at offset " +:+ pretty failing +:+ ": " +:+ txt].
Proof.
  intros run Hk Hfull Hfuel Hlost Hfetched. set (n := chunks_left cs total 0) in *.
  assert (failing ∈ progression 0 cs n) as Hin.
  { apply list_elem_of_lookup. exists k. apply progression_lookup.
    split; [|lia]. apply (chunks_left_lt cs_pos total 0). fold cs. lia. }
  destruct (run_with_losses fieldnames page (planned cs total) (λ o, o = failing)
              (progression 0 cs n) s)
    as (Hres & Hbuf & Hout & new & out & txts & Hlog & _ & Hnew & Hlen & _).
  { intros o st Ho. destruct (decide (o = failing)) as [->|Hne];
      [by apply Hlost|by apply Hfetched]. }
  pose proof (filter_eq_NoDup _ _ (progression_NoDup cs_pos 0 n) Hin) as H1.
  fold cs in H1.
  destruct (filter (λ o, o = failing) (progression 0 cs n)) as [|f [|? ?]] eqn:Ef;
    try done.
  assert (f = failing) as ->.
  { assert (f ∈ filter (λ o, o = failing) (progression 0 cs n)) as Hf
      by (rewrite Ef; left).
    by apply list_elem_of_filter in Hf as [-> _]. }
  destruct txts as [|txt [|? ?]]; try done. cbn [zip_with] in Hnew.
  pose proof (waves_flat cs_pos mt_ok (process_chunk fieldnames) fuel total 0 0 s Hfuel)
    as Hflat.
  cbv zeta in Hflat. fold cs n in Hflat. rewrite Hres in Hflat.
  replace ((λ o, inr (if decide (o = failing) then 0 else planned cs total o))
             <$> progression 0 cs n)
    with (inr (A := exn) <$> (contribution cs total failing <$> progression 0 cs n))
    in Hflat by (by rewrite <- list_fmap_compose).
  rewrite collect_counts in Hflat.
  pose proof (contribution_sum cs_pos total failing n 0 eq_refl Hfull) as Hsum.
  fold cs in Hsum. rewrite Hsum, decide_True in Hflat by done.
  destruct (Hflat (total - cs) ltac:(f_equal; lia)) as [submitted Hw].
  pose proof (waves_schedule cs_pos mt_ok (process_chunk fieldnames) fuel total 0 0 s Hfuel)
    as Hs.
  cbv zeta in Hs. rewrite Hw in Hs. destruct Hs as [_ [Hc _]]. fold cs n in Hc.
  eexists _, submitted, _, _, new, txt. cbn [scan].
  split; [exact Hw|]. rewrite Hc. split; [done|]. split; [done|].
  split; [exact Hbuf|]. split; [done|]. by split.
Qed.

(** X9: in a run of the scan loop where every chunk of the schedule is
    answered, when it is fetched, with its planned number of records, all
    with known fields, the loop drains with a count equal to the expected
    total, writes nothing to the error log, prints nothing, and the buffer
    receives the rows of the records of every chunk of the schedule, each
    once, and no other row. *)
Theorem all_chunks_fetched fieldnames total (page : Z → list record)
    (s : State) fuel :
  let run :=
    starts (process_chunk fieldnames) (progression 0 cs (chunks_left cs total 0)) s in
  0 ≤ total →
  (chunks_left cs total 0 < fuel)%nat →
  (∀ o st, (o, st) ∈ run →
     chunk_answered o (page o) st ∧
     Z.of_nat (length (page o)) = planned cs total o ∧
     Forall (known fieldnames) (page o)) →
  ∃ cursor submitted s' added,
    scan fuel fieldnames (JInt total) s = (Drained cursor total, submitted, s') ∧
    concat submitted = progression 0 cs (chunks_left cs total 0) ∧
    default [] (temp_output s') = default [] (temp_output s) ++ added ∧
    added ≡ₚ concat ((λ o, row_of fieldnames <$> page o) <$> concat submitted) ∧
    error_log s' = error_log s ∧ stdout s' = stdout s.
Proof.
  intros run Htot Hfuel Hfetched. set (n := chunks_left cs total 0) in *.
  destruct (run_with_losses fieldnames page (planned cs total) (λ _, False)
              (progression 0 cs n) s)
    as (Hres & Hbuf & _ & new & out & txts & Hlog & Hout & _ & _ & Hnone).
  { intros o st Ho. rewrite decide_False by (intros []). by apply Hfetched. }
  assert (∀ l : list Z, filter (λ _, False) l = []) as Hnil.
  { intros l. induction l as [|o l IH]; [done|].
    by rewrite filter_cons_False by (intros []). }
  assert (∀ l : list Z, filter (λ _, ¬ False) l = l) as Hall.
  { intros l. induction l as [|o l IH]; [done|].
    rewrite filter_cons_True by (intros []). by rewrite IH. }
  destruct (Hnone (Hnil _)) as [-> ->]. rewrite app_nil_r in Hlog, Hout.
  rewrite Hall in Hbuf.
  pose proof (waves_flat cs_pos mt_ok (process_chunk fieldnames) fuel total 0 0 s Hfuel)
    as Hflat.
  cbv zeta in Hflat. fold cs n in Hflat. rewrite Hres in Hflat.
  replace ((λ o, inr (if decide False then 0 else planned cs total o))
             <$> progression 0 cs n)
    with (inr (A := exn) <$> (planned cs total <$> progression 0 cs n))
    in Hflat by (by rewrite <- list_fmap_compose).
  rewrite collect_counts in Hflat.
  rewrite (planned_sum total n 0 eq_refl) in Hflat.
  destruct (Hflat total ltac:(f_equal; lia)) as [submitted Hw].
  pose proof (waves_schedule cs_pos mt_ok (process_chunk fieldnames) fuel total 0 0 s Hfuel)
    as Hs.
  cbv zeta in Hs. rewrite Hw in Hs. destruct Hs as [_ [Hc _]]. fold cs n in Hc.
  eexists _, submitted, _, _. cbn [scan]. split; [exact Hw|]. rewrite Hc.
  split; [done|]. split; [exact Hbuf|]. by split.
Qed.

End Coverage.

End Run.

(** * Credentials *)

Section AuthProperties.

Context {G : Type}.
Variable generate_bearer_token : option string → G → (string * string) * G.
Variable is_expired : string → G → bool.
Variable creds : Credentials.

(** X17: once the provider has returned a non-empty token it has settled:
    every later call returns the same token and type and changes nothing, so
    the SDK is not asked again, not even when the token has expired. *)
Theorem token_provider_settles (st : AuthState G) :
  let r := (token_provider generate_bearer_token is_expired creds st).1 in
  let st1 := (token_provider generate_bearer_token is_expired creds st).2 in
  truthy r.1 ≠ None →
  token_provider generate_bearer_token is_expired creds st1 = (r, st1) ∧
  ∀ n, Nat.iter n (λ x, (token_provider generate_bearer_token is_expired creds x).2) st1
       = st1.
Proof.
  cbv zeta. intros Hr.
  assert (token_provider generate_bearer_token is_expired creds
            (token_provider generate_bearer_token is_expired creds st).2 =
          ((token_provider generate_bearer_token is_expired creds st).1,
           (token_provider generate_bearer_token is_expired creds st).2)) as Hagain.
  { unfold token_provider in *.
    destruct (truthy (bearerToken st)) as [t|] eqn:Et; cbn [fst snd] in *.
    - by rewrite Et.
    - destruct (match bearerToken st with
                | Some t => is_expired t (sdk st) | None => true end).
      + destruct (generate_bearer_token _ _) as [[token type] g]. cbn [fst snd] in *.
        cbn [bearerToken tokenType sdk]. by destruct (truthy (Some token)).
      + cbn [fst snd] in *. by rewrite Et in Hr. }
  split; [exact Hagain|].
  induction n as [|n IH]; [done|]. rewrite Nat.iter_succ, IH. by rewrite Hagain.
Qed.

(** X18: with credentials that pass the check of the command line, the
    Authorization header is "Bearer " followed by the token of [--bt], and
    the SDK is not used, when that token is given; otherwise a path was
    given, the SDK generates a token from it, once, and the header carries
    that token behind "Bearer " whatever type the SDK returned. *)
Theorem startup_header (g : G) :
  credentials_rejected creds = false →
  match truthy (BEARER_TOKEN creds) with
  | Some t =>
      truthy (PATH_TO_CREDENTIALS_JSON creds) = None ∧
      startup generate_bearer_token is_expired creds g =
        ([("Authorization", "Bearer " +:+ t); ("Content-Type", "application/json")],
         mkAuth (Some t) "Bearer" g)
  | None =>
      is_Some (truthy (PATH_TO_CREDENTIALS_JSON creds)) ∧
      (BEARER_TOKEN creds = None →
       let '((token, type), g') :=
         generate_bearer_token (PATH_TO_CREDENTIALS_JSON creds) g in
       startup generate_bearer_token is_expired creds g =
         ([("Authorization", "Bearer " +:+ token); ("Content-Type", "application/json")],
          mkAuth (Some token) type g'))
  end.
Proof.
  unfold credentials_rejected, startup.
  destruct (truthy (BEARER_TOKEN creds)) as [t|] eqn:Et.
  - destruct (truthy (PATH_TO_CREDENTIALS_JSON creds)); [done|]. intros _.
    split; [done|]. unfold auth_start.
    unfold truthy in Et. destruct (BEARER_TOKEN creds) as [t'|]; [|done].
    case_decide; [done|]. by injection Et as ->.
  - destruct (truthy (PATH_TO_CREDENTIALS_JSON creds)) as [p|]; [|done]. intros _.
    split; [by eexists|]. intros Hb. unfold token_provider, auth_start.
    rewrite Hb. cbn.
    by destruct (generate_bearer_token _ g) as [[token type] g'].
Qed.

End AuthProperties.

(** * The statements at work *)

(** The requester in front of a service that is down. *)
Lemma make_api_call_exhausted_witness :
  let req := mkRequest GET (page_url "0") None in
  first_try down req tt = inl "connection refused" ∧
  (make_api_call down req (fresh tt)).1 = None ∧
  http_log (make_api_call down req (fresh tt)).2 = [req; req; req] ∧
  slept (make_api_call down req (fresh tt)).2 = [1; 2] ∧
  error_log (make_api_call down req (fresh tt)).2 =
    ["API call failed after 3 attempts: connection refused"].
Proof.
  intros req. split; [reflexivity|].
  destruct (make_api_call_exhausted down req (fresh tt) _ _ _
              eq_refl eq_refl eq_refl) as (_ & _ & ->).
  repeat split; reflexivity.
Defined.

(** C7, as stated, fails: the first attempt fails and is retried, the
    second succeeds, and the error log has no entry for the failure. *)
Lemma retried_failure_is_not_logged :
  let req := mkRequest GET (page_url "0") None in
  failed_attempts scripted 3 req flaky =
    ["503 Server Error: Service Unavailable for url: " +:+ page_url "0"] ∧
  is_Some (make_api_call scripted req (fresh flaky)).1 ∧
  http_log (make_api_call scripted req (fresh flaky)).2 = [req; req] ∧
  error_log (make_api_call scripted req (fresh flaky)).2 = [].
Proof. intros req. repeat split; try reflexivity. by eexists. Qed.

Lemma make_api_call_logs_final_failure_only_witness :
  let req := mkRequest GET (page_url "0") None in
  (length (failed_attempts scripted 3 req flaky) < 3)%nat ∧
  error_log (make_api_call scripted req (fresh flaky)).2 = [].
Proof.
  intros req.
  destruct (make_api_call_logs_final_failure_only scripted req (fresh flaky))
    as (_ & H & _).
  assert (length (failed_attempts scripted 3 req flaky) < 3)%nat as Hlt
    by (vm_compute; lia).
  split; [exact Hlt|]. destruct (H Hlt) as [_ ->]. reflexivity.
Defined.

(** The scan of a table of five rows, two at a time, five jobs at most in a
    wave. *)
Lemma scan_covers_each_offset_once_witness :
  0 < ROWS_PER_CHUNK demo_args ∧ args_ok demo_args ∧
  (chunks_left (ROWS_PER_CHUNK demo_args) 5 0 < 4)%nat ∧
  ∃ r submitted s',
    scan scripted demo_args 4 ["email"; "skyflow_id"; "name"] (JInt 5) (fresh lossy) =
      (r, submitted, s') ∧
    r ≠ OutOfFuel ∧ NoDup (concat submitted) ∧
    concat submitted `prefix_of` [0; 2; 4].
Proof.
  assert (0 < ROWS_PER_CHUNK demo_args) as Hcs by reflexivity.
  assert (args_ok demo_args) as Hmt by (split; discriminate).
  assert (chunks_left (ROWS_PER_CHUNK demo_args) 5 0 < 4)%nat as Hf
    by (vm_compute; lia).
  split; [exact Hcs|]. split; [exact Hmt|]. split; [exact Hf|].
  destruct (scan_covers_each_offset_once scripted demo_args Hcs Hmt
              ["email"; "skyflow_id"; "name"] 5 (fresh lossy) 4 Hf)
    as (r & submitted & s' & Hs & Hr & _ & Hp & Hn & _).
  exists r, submitted, s'. split; [exact Hs|]. split; [exact Hr|].
  split; [exact Hn|]. exact Hp.
Defined.

Example scan_three_chunks_one_wave :
  (scan scripted demo_args 4 ["email"; "skyflow_id"; "name"] (JInt 5) (fresh healthy)).1 =
  (Drained 6 5, [[0; 2; 4]]).
Proof. reflexivity. Qed.

(** Why the schedule needs a positive [--rows_per_call], which argparse
    does not ask for: with 0 the cursor stays at 0, every wave submits the
    offset 0 five times, and no amount of fuel drains the loop. *)
Remark zero_rows_per_call_never_drains fuel dumped (s : State unit) :
  let a := with_rows_per_call 0 demo_args in
  ∃ s',
    waves a fuel (process_chunk down a ["skyflow_id"]) 1 0 dumped s =
      (OutOfFuel, replicate fuel [0; 0; 0; 0; 0], s').
Proof.
  intros a. revert dumped s. induction fuel as [|fuel IH]; intros dumped s.
  - by eexists.
  - assert (∀ s0 : State unit,
              (process_chunk down a ["skyflow_id"] 0 s0).1 = inr 0) as Hjob.
    { intros s0. rewrite process_chunk_failed; [done|].
      rewrite make_api_call_unfold. reflexivity. }
    cbn [waves]. rewrite decide_True by lia.
    change (submit_wave a (seqZ 0 (MAX_PARALLEL_TASKS a)) 0 1)
      with ([0; 0; 0; 0; 0], 0).
    cbn [run_jobs].
    repeat match goal with
    | |- context [process_chunk down a ?f 0 ?s0] =>
        let H := fresh in
        pose proof (Hjob s0) as H;
        destruct (process_chunk down a f 0 s0) as [? ?]; cbn in H; subst
    end.
    cbn [collect].
    match goal with |- context [waves a fuel ?j 1 0 ?d ?s0] =>
      destruct (IH d s0) as (s' & ->) end.
    by eexists.
Qed.

(** C1, as stated, fails: [--rows_per_call 0] is accepted by the command
    line; for a table of one row the cursor never leaves 0, every wave
    submits the offset 0 five times, and the loop does not end, whatever the
    number of waves it is given. *)
Lemma zero_rows_per_call_resubmits_offset_0 :
  let a := with_rows_per_call 0 demo_args in
  (args_ok a ∧ ROWS_PER_CHUNK a = 0) ∧
  ∀ fuel, ∃ s',
    scan down a fuel ["skyflow_id"] (JInt 1) (fresh tt) =
      (OutOfFuel, replicate fuel [0; 0; 0; 0; 0], s').
Proof.
  intros a. split; [split; [split; discriminate|reflexivity]|].
  intros fuel. apply zero_rows_per_call_never_drains.
Qed.

(** The records of the five people have the fields of the header. *)
Lemma healthy_page_known o :
  Forall (known ["email"; "skyflow_id"; "name"]) (healthy_page o).
Proof.
  assert (∀ i e n, known ["email"; "skyflow_id"; "name"] (person i e n)) as Hp.
  { intros i e n. eexists. split; [reflexivity|]. intros k Hk. cbn in Hk.
    rewrite !elem_of_cons in *. tauto. }
  unfold healthy_page. repeat case_decide; repeat constructor; apply Hp.
Qed.

(** The page at offset 0 answers the probe and is lost in the scan; the
    pages at 2 and 4 answer. *)
Lemma chunk_failure_isolated_witness :
  let s := (probe_schema scripted demo_args
              (count_records scripted demo_args (fresh relapsing)).2).2 in
  ∃ cursor submitted s',
    scan scripted demo_args 4 ["email"; "skyflow_id"; "name"] (JInt 5) s =
      (Drained cursor (5 - 2), submitted, s') ∧
    concat submitted = [0; 2; 4] ∧
    temp_output s' = Some [["email"; "skyflow_id"; "name"];
                           ["c@x"; "id3"; "Cy"]; ["d@x"; "id4"; "Di"];
                           ["e@x"; "id5"; "Ed"]] ∧
    filter chunk_level (error_log s') = ["Error occurred at offset 0: No response"].
Proof.
  intros s.
  assert (0 < ROWS_PER_CHUNK demo_args) as Hcs by reflexivity.
  assert (args_ok demo_args) as Hmt by (split; discriminate).
  destruct (chunk_failure_isolated scripted demo_args Hcs Hmt
              ["email"; "skyflow_id"; "name"] 5 0 healthy_page s 4 0)
    as (cursor & submitted & s' & added & new & txt & Hs & _).
  - reflexivity.
  - done.
  - vm_compute; lia.
  - intros st Hin. vm_compute in Hin.
    repeat (apply elem_of_cons in Hin as [Hin|Hin];
            [try discriminate Hin; injection Hin as ->; vm_compute; reflexivity|]).
    by apply elem_of_nil in Hin.
  - intros o st Hin Hne. split; [|split; [|apply healthy_page_known]].
    + vm_compute in Hin.
      apply elem_of_cons in Hin as [Hin|Hin]; [by injection Hin as -> _|].
      apply elem_of_cons in Hin as [Hin|Hin].
      { injection Hin as -> ->.
        exists (mkResponse 200 "OK" "{...}" (Some (mkBody (Some [p3; p4])))).
        split; [vm_compute; reflexivity|]. by split. }
      apply elem_of_cons in Hin as [Hin|Hin].
      { injection Hin as -> ->.
        exists (mkResponse 200 "OK" "{...}" (Some (mkBody (Some [p5])))).
        split; [vm_compute; reflexivity|]. by split. }
      by apply elem_of_nil in Hin.
    + assert (o ∈ [0; 2; 4]) as Ho.
      { apply (list_elem_of_fmap_2 fst) in Hin. vm_compute in Hin. exact Hin. }
      repeat (apply elem_of_cons in Ho as [->|Ho]; [done || reflexivity|]).
      by apply elem_of_nil in Ho.
  - exists cursor, submitted, s'. split; [exact Hs|].
    clear -Hs. vm_compute in Hs. injection Hs as <- <- <-.
    repeat split; reflexivity.
Defined.

(** A first page whose second record has a field of its own. *)
Lemma scan_chunk_unknown_field_aborts_witness :
  ∃ s',
    main (fixed ragged) demo_args no_clock 1 (fresh tt) =
      (Uncaught (ValueError "dict contains fields not in fieldnames"), s') ∧
    output_csv s' = None ∧
    temp_output s' = Some [["email"; "skyflow_id"; "name"]; ["a@x"; "id1"; "Ann"]].
Proof.
  set (s0 := fresh tt : State unit).
  set (s1 := (count_records (fixed ragged) demo_args s0).2).
  set (s := (probe_schema (fixed ragged) demo_args s1).2).
  destruct (scan_chunk_unknown_field_aborts (fixed ragged) demo_args no_clock
              ["email"; "skyflow_id"; "name"] 2 s0 s1 s 0
              {| status_code := 200; reason := "OK"; text := "{...}";
                 json := Some (mkBody (Some
                   [p1; mkRecord (Some [("skyflow_id", JStr "id2"); ("phone", JStr "555")])])) |}
              [p1; mkRecord (Some [("skyflow_id", JStr "id2"); ("phone", JStr "555")])]
              (mkRecord (Some [("skyflow_id", JStr "id2"); ("phone", JStr "555")]))
              [("skyflow_id", JStr "id2"); ("phone", JStr "555")] "phone")
    as [(e & _ & He & _ & s' & Hm & _ & Ho) _].
  - split; discriminate.
  - reflexivity.
  - reflexivity.
  - reflexivity.
  - reflexivity.
  - reflexivity.
  - reflexivity.
  - right. left.
  - reflexivity.
  - right. left.
  - intros H. repeat (apply elem_of_cons in H as [H|H]; [discriminate|]).
    by apply elem_of_nil in H.
  - rewrite He in Hm by (repeat constructor; by eexists).
    exists s'. split; [exact Hm|]. clear -Hm. vm_compute in Hm.
    injection Hm as <-. split; reflexivity.
Defined.

(** A service that is down stops the run at the first gate; a service that
    answers lets it publish. *)
Lemma pipeline_gates_witness :
  (∃ s', main down demo_args no_clock 4 (fresh tt) = (SysExit 1, s') ∧
     last (error_log s') = Some "Failed to retrieve record count: No response" ∧
     output_csv s' = None) ∧
  (∃ s', main scripted demo_args no_clock 4 (fresh healthy) = (Completed, s') ∧
     output_csv s' =
       Some [["email"; "skyflow_id"; "name"]; ["a@x"; "id1"; "Ann"];
             ["b@x"; "id2"; "Bob"]; ["c@x"; "id3"; "Cy"]; ["d@x"; "id4"; "Di"];
             ["e@x"; "id5"; "Ed"]]).
Proof.
  split.
  - destruct (pipeline_gates down demo_args no_clock 4 (fresh tt)) as [H _].
    assert (gate_failure down demo_args (fresh tt)
              "Failed to retrieve record count: No response") as Hg.
    { pose proof (count_gate down demo_args (fresh tt)) as Hc.
      vm_compute in Hc. exact (Hc eq_refl). }
    destruct (H _ Hg) as (s' & Hm & _ & Hl & Ho & _).
    exists s'. split; [exact Hm|]. split; [exact Hl|]. exact Ho.
  - destruct (pipeline_gates scripted demo_args no_clock 4 (fresh healthy)) as [_ H].
    set (res := main scripted demo_args no_clock 4 (fresh healthy)) in *.
    assert (res = (Completed, res.2)) as Hm by (vm_compute; reflexivity).
    destruct (H _ Hm) as [_ _].
    exists res.2. split; [exact Hm|]. vm_compute. reflexivity.
Defined.

(** C3, as stated, fails: the field names are not always the keys of the
    first record reordered.  With skyflow_id itself as the unique column it
    is listed twice (here for the first page of the five people); with no
    skyflow_id among the keys it is added. *)
Lemma fieldnames_not_a_reordering :
  (derive_fieldnames (Some "skyflow_id") ["name"; "skyflow_id"; "email"] =
     Some ["skyflow_id"; "skyflow_id"; "name"; "email"] ∧
   ¬ ["skyflow_id"; "skyflow_id"; "name"; "email"] ≡ₚ ["name"; "skyflow_id"; "email"]) ∧
  (derive_fieldnames None ["name"; "email"] = Some ["skyflow_id"; "name"; "email"] ∧
   ¬ ["skyflow_id"; "name"; "email"] ≡ₚ ["name"; "email"]) ∧
  (probe_schema scripted demo_args_sid
     (count_records scripted demo_args_sid (fresh healthy)).2).1 =
    inr ["skyflow_id"; "skyflow_id"; "name"; "email"].
Proof.
  split; [|split].
  - split; [reflexivity|]. intros H%Permutation_length. discriminate.
  - split; [reflexivity|]. intros H%Permutation_length. discriminate.
  - vm_compute. reflexivity.
Qed.

(** The columns of the demonstration table, and a run that asks for a
    column the table lacks. *)
Lemma schema_derivation_witness :
  derive_fieldnames (Some "email") ["name"; "skyflow_id"; "email"] =
    Some ["email"; "skyflow_id"; "name"] ∧
  derive_fieldnames None ["name"; "skyflow_id"; "email"] =
    Some ["skyflow_id"; "name"; "email"] ∧
  ∃ s', main scripted demo_args_ssn no_clock 4 (fresh healthy) = (SysExit 1, s') ∧
    http_log s' =
      [mkRequest POST "https://host/v1/vaults/v1/query"
         (Some [("query", "select " +:+ count_star +:+ " from people")]);
       mkRequest GET (page_url "0") None] ∧
    output_csv s' = None.
Proof.
  destruct (schema_derivation scripted demo_args_ssn no_clock (Some "ssn")
              ["name"; "skyflow_id"; "email"]) as (_ & _ & H).
  split; [reflexivity|]. split; [reflexivity|].
  set (s := fresh healthy : State script).
  set (s1 := (count_records scripted demo_args_ssn s).2).
  destruct (H "ssn" 4%nat s (JInt 5) s1
              {| status_code := 200; reason := "OK"; text := "{...}";
                 json := Some (mkBody (Some [p1; p2])) |}
              (mkBody (Some [p1; p2])) p1 [p2]
              [("name", JStr "Ann"); ("skyflow_id", JStr "id1"); ("email", JStr "a@x")])
    as (_ & s' & n & Hm & _ & _ & _); try reflexivity.
  { intros Hin. repeat (apply elem_of_cons in Hin as [Hin|Hin]; [discriminate|]).
    by apply elem_of_nil in Hin. }
  exists s'. split; [exact Hm|]. clear -Hm. vm_compute in Hm.
  injection Hm as <-. split; reflexivity.
Defined.






(** The URL of a scan chunk does not depend on [--rows_per_call]. *)
Lemma scan_url_ignores_rows_per_call args rows offset :
  scan_url (with_rows_per_call rows args) offset = scan_url args offset.
Proof. reflexivity. Qed.

(** C9 at the offset 10 with ten rows per call: the request has the offset,
    the redaction level and the order; no parameter carries the number of
    rows, and the URL is the one built for any other [--rows_per_call]. *)
Theorem scan_request_carries_no_limit :
  let a := with_rows_per_call 10 demo_args in
  scan_url a 10 =
    "https://host/v1/vaults/v1/people?redaction=PLAIN_TEXT&offset=10&order_by=ASCENDING" ∧
  contains "limit" (scan_url a 10) = false ∧
  contains "10" (scan_url (with_rows_per_call 10 demo_args) 0) = false ∧
  scan_url a 10 = scan_url (with_rows_per_call 25 demo_args) 10 ∧
  http_log (process_chunk down a ["skyflow_id"] 10 (fresh tt)).2 =
    replicate 3 (mkRequest GET (scan_url a 10) None) ∧
  token_url a ["id1"; "id2"] =
    "https://host/v1/vaults/v1/people?tokenization=true&skyflow_ids=id1&skyflow_ids=id2".
Proof. repeat split; vm_compute; reflexivity. Qed.
(** * The further statements at work *)

(** The dump of the five people. *)
Lemma export_rows_counted_witness :
  ∃ s' (dumped : Z) (rows : table),
    export (fixed healthy) demo_args no_clock 4 (fresh tt) =
      (inr ["email"; "skyflow_id"; "name"], s') ∧
    output_csv s' = Some (["email"; "skyflow_id"; "name"] :: rows) ∧
    Z.of_nat (length rows) = dumped ∧
    "Data dump completed. Total records dumped: " +:+ pretty dumped ∈ stdout s'.
Proof.
  set (res := export (fixed healthy) demo_args no_clock 4 (fresh tt)).
  assert (res = (inr ["email"; "skyflow_id"; "name"], res.2)) as H
    by (vm_compute; reflexivity).
  destruct (export_rows_counted (fixed healthy) demo_args no_clock 4 (fresh tt)
              _ _ H) as (dumped & rows & Ho & Hn & _ & _ & _ & Hp).
  exists res.2, dumped, rows.
  split; [exact H|]. split; [exact Ho|]. split; [exact Hn|exact Hp].
Defined.

(** The dump of the five people and of their tokens. *)
Lemma token_file_rows_counted_witness :
  DUMP_TOKENS_ENABLED demo_args_tokens = true ∧
  ∃ s' (fieldnames : row) (tokens : table) (dumped : Z),
    main (fixed healthy_tokens) demo_args_tokens no_clock 4 (fresh tt) =
      (Completed, s') ∧
    output_token_csv s' = Some (fieldnames :: tokens) ∧
    Z.of_nat (length tokens) = dumped ∧
    "Tokenization completed. Total tokens dumped: " +:+ pretty dumped ∈ stdout s'.
Proof.
  set (res := main (fixed healthy_tokens) demo_args_tokens no_clock 4 (fresh tt)).
  assert (res = (Completed, res.2)) as H by (vm_compute; reflexivity).
  split; [reflexivity|].
  destruct (token_file_rows_counted (fixed healthy_tokens) demo_args_tokens
              no_clock 4 (fresh tt) _ eq_refl H)
    as (fieldnames & rows & tokens & dumped & _ & Ht & _ & Hn & _ & Hp).
  exists res.2, fieldnames, tokens, dumped.
  split; [exact H|]. split; [exact Ht|]. split; [exact Hn|exact Hp].
Defined.


(** Tokens are asked for, and no file is named for them. *)
Lemma dump_tokens_needs_output_path_witness :
  let res := main (fixed healthy_tokens) demo_args_no_token_path no_clock 4 (fresh tt) in
  res.1 ≠ Completed ∧ output_token_csv res.2 = None.
Proof.
  intros res.
  destruct (dump_tokens_needs_output_path (fixed healthy_tokens)
              demo_args_no_token_path no_clock 4 (fresh tt) eq_refl eq_refl)
    as (Hn & Ht & _).
  split; [exact Hn|exact Ht].
Defined.

(** Five identifiers, two at a time. *)
Lemma token_batches_cover_witness :
  let ids := ["id1"; "id2"; "id3"; "id4"; "id5"] in
  let run := waves demo_args 4 (token_job down demo_args ["skyflow_id"] ids) 5 0 0
               (fresh tt) in
  let batches := (λ offset, py_slice ids offset ((offset + 2) `min` 5)) <$>
                 concat run.1.2 in
  0 < ROWS_PER_CHUNK demo_args ∧ args_ok demo_args ∧
  (chunks_left (ROWS_PER_CHUNK demo_args) 5 0 < 4)%nat ∧
  run.1.1 ≠ OutOfFuel ∧ concat batches `prefix_of` ids.
Proof.
  intros ids run batches.
  assert (0 < ROWS_PER_CHUNK demo_args) as Hcs by reflexivity.
  assert (args_ok demo_args) as Hmt by (split; discriminate).
  assert (chunks_left (ROWS_PER_CHUNK demo_args) 5 0 < 4)%nat as Hf
    by (vm_compute; lia).
  split; [exact Hcs|]. split; [exact Hmt|]. split; [exact Hf|].
  destruct (token_batches_cover down demo_args Hcs Hmt ids ["skyflow_id"] 4
              (fresh tt) Hf) as (Hn & _ & _ & Hp & _).
  split; [exact Hn|exact Hp].
Defined.

(** Every page of the five people answers. *)
Lemma all_chunks_fetched_witness :
  ∃ cursor submitted s',
    scan scripted demo_args 4 ["email"; "skyflow_id"; "name"] (JInt 5) (fresh healthy) =
      (Drained cursor 5, submitted, s') ∧
    concat submitted = [0; 2; 4] ∧
    temp_output s' = Some [["a@x"; "id1"; "Ann"]; ["b@x"; "id2"; "Bob"];
                           ["c@x"; "id3"; "Cy"]; ["d@x"; "id4"; "Di"];
                           ["e@x"; "id5"; "Ed"]] ∧
    error_log s' = [].
Proof.
  assert (0 < ROWS_PER_CHUNK demo_args) as Hcs by reflexivity.
  assert (args_ok demo_args) as Hmt by (split; discriminate).
  destruct (all_chunks_fetched scripted demo_args Hcs Hmt
              ["email"; "skyflow_id"; "name"] 5 healthy_page (fresh healthy) 4)
    as (cursor & submitted & s' & added & Hs & _).
  - done.
  - vm_compute; lia.
  - intros o st Hin. split; [|split; [|apply healthy_page_known]].
    + vm_compute in Hin.
      apply elem_of_cons in Hin as [Hin|Hin].
      { injection Hin as -> ->.
        exists (mkResponse 200 "OK" "{...}" (Some (mkBody (Some [p1; p2])))).
        split; [vm_compute; reflexivity|]. by split. }
      apply elem_of_cons in Hin as [Hin|Hin].
      { injection Hin as -> ->.
        exists (mkResponse 200 "OK" "{...}" (Some (mkBody (Some [p3; p4])))).
        split; [vm_compute; reflexivity|]. by split. }
      apply elem_of_cons in Hin as [Hin|Hin].
      { injection Hin as -> ->.
        exists (mkResponse 200 "OK" "{...}" (Some (mkBody (Some [p5])))).
        split; [vm_compute; reflexivity|]. by split. }
      by apply elem_of_nil in Hin.
    + assert (o ∈ [0; 2; 4]) as Ho.
      { apply (list_elem_of_fmap_2 fst) in Hin. vm_compute in Hin. exact Hin. }
      repeat (apply elem_of_cons in Ho as [->|Ho]; [reflexivity|]).
      by apply elem_of_nil in Ho.
  - exists cursor, submitted, s'. split; [exact Hs|].
    clear -Hs. vm_compute in Hs. injection Hs as <- <- <-.
    repeat split; reflexivity.
Defined.

(** The count query is answered with an empty list of records. *)
Lemma count_unreadable_witness :
  ∃ s1,
    count_records (fixed countless) demo_args (fresh tt) =
      (inl (Uncaught (IndexError "list index out of range")), s1) ∧
    main (fixed countless) demo_args no_clock 1 (fresh tt) =
      (Uncaught (IndexError "list index out of range"), s1) ∧
    error_log s1 = [] ∧ output_csv s1 = None.
Proof.
  set (res := count_records (fixed countless) demo_args (fresh tt)).
  assert (res = (inl (Uncaught (IndexError "list index out of range")), res.2))
    as H by (vm_compute; reflexivity).
  destruct (count_unreadable (fixed countless) demo_args no_clock 1 (fresh tt)
              _ _ H) as (Hm & _ & _ & Hl & _ & _ & Ho).
  exists res.2. split; [exact H|]. split; [exact Hm|]. split; [exact Hl|exact Ho].
Defined.

(** A page answered with 204. *)
Lemma process_chunk_other_status_witness :
  let res := process_chunk (fixed no_content) demo_args ["skyflow_id"] 0 (fresh tt) in
  res.1 = inr 0 ∧ error_log res.2 = ["Error occurred at offset 0: "].
Proof.
  intros res.
  assert (fixed no_content (mkRequest GET (scan_url demo_args 0) None)
            (net (fresh tt)) =
          (Resp (mkResponse 204 "No Content" "" None), tt)) as H
    by (vm_compute; reflexivity).
  pose proof (process_chunk_other_status (fixed no_content) demo_args
                ["skyflow_id"] 0 (fresh tt) _ _ H) as Hp.
  cbv zeta in Hp. subst res. rewrite Hp; [by split|discriminate|cbn; lia].
Defined.

(** The field names of the people, with the e-mail as the unique column. *)
Lemma derive_fieldnames_stable_witness :
  derive_fieldnames (Some "email") ["name"; "skyflow_id"; "email"] =
    Some ["email"; "skyflow_id"; "name"] ∧
  derive_fieldnames (Some "email") ["email"; "skyflow_id"; "name"] =
    Some ["email"; "skyflow_id"; "name"].
Proof.
  assert (derive_fieldnames (Some "email") ["name"; "skyflow_id"; "email"] =
            Some ["email"; "skyflow_id"; "name"]) as H by reflexivity.
  split; [exact H|]. exact (derive_fieldnames_stable _ _ _ H).
Defined.

Lemma fieldnames_distinct_witness :
  derive_fieldnames (Some "skyflow_id") ["name"; "skyflow_id"; "email"] =
    Some ["skyflow_id"; "skyflow_id"; "name"; "email"] ∧
  NoDup ["name"; "skyflow_id"; "email"] ∧
  ¬ NoDup ["skyflow_id"; "skyflow_id"; "name"; "email"].
Proof.
  assert (derive_fieldnames (Some "skyflow_id") ["name"; "skyflow_id"; "email"] =
            Some ["skyflow_id"; "skyflow_id"; "name"; "email"]) as H by reflexivity.
  assert (NoDup ["name"; "skyflow_id"; "email"]) as Hk
    by (apply (bool_decide_unpack _); vm_compute; exact I).
  split; [exact H|]. split; [exact Hk|].
  destruct (fieldnames_distinct _ _ _ H Hk) as [Hiff _].
  intros Hn. by apply Hiff in Hn.
Defined.

(** The identifiers of a dump of two people. *)
Lemma collect_ids_reads_every_row_witness :
  let fieldnames := ["email"; "skyflow_id"; "name"] in
  let rows := [["a@x"; "id1"; "Ann"]; ["b@x"; "id2"; "Bob"]] in
  ∃ additional_fields,
    collect_ids (UNIQUE_ID_COLUMN demo_args) (dict_reader (fieldnames :: rows)) [] ∅ =
      inr (["id1"; "id2"], additional_fields).
Proof.
  intros fieldnames rows.
  destruct (collect_ids_reads_every_row demo_args fieldnames rows)
    as (additional_fields & Hc & _).
  - apply (bool_decide_unpack _). vm_compute. exact I.
  - intros u [= <-]. apply (bool_decide_unpack _). vm_compute. exact I.
  - repeat constructor.
    + by exists (cells_of [("email", "a@x"); ("skyflow_id", "id1"); ("name", "Ann")]).
    + by exists (cells_of [("email", "b@x"); ("skyflow_id", "id2"); ("name", "Bob")]).
  - exists additional_fields. exact Hc.
Defined.

(** The first call generates a token, the next calls return it. *)
Lemma token_provider_settles_witness :
  let st := auth_start file_credentials 0%nat in
  let st1 := (token_provider counting_sdk never_expired file_credentials st).2 in
  truthy (token_provider counting_sdk never_expired file_credentials st).1.1 ≠ None ∧
  token_provider counting_sdk never_expired file_credentials st1 =
    ((Some "token0", "Bearer"), st1) ∧
  sdk st1 = 1%nat.
Proof.
  intros st st1.
  assert (truthy (token_provider counting_sdk never_expired file_credentials st).1.1
            ≠ None) as H by (vm_compute; discriminate).
  split; [exact H|].
  destruct (token_provider_settles counting_sdk never_expired file_credentials st H)
    as [Hs _].
  split; [exact Hs|reflexivity].
Defined.

Lemma startup_header_witness :
  credentials_rejected file_credentials = false ∧
  (startup counting_sdk never_expired file_credentials 0%nat).1 =
    [("Authorization", "Bearer token0"); ("Content-Type", "application/json")].
Proof.
  assert (credentials_rejected file_credentials = false) as H by reflexivity.
  split; [exact H|].
  pose proof (startup_header counting_sdk never_expired file_credentials 0%nat H)
    as Hs.
  change (is_Some (Some "credentials.json") ∧
          (@None string = None →
           startup counting_sdk never_expired file_credentials 0%nat =
             ([("Authorization", "Bearer token0");
               ("Content-Type", "application/json")],
              mkAuth (Some "token0") "Bearer" 1%nat))) in Hs.
  destruct Hs as [_ Hs]. exact (f_equal fst (Hs eq_refl)).
Defined.

(** The run over the five people ends. *)
Lemma main_terminates_witness :
  0 < ROWS_PER_CHUNK demo_args_tokens ∧ args_ok demo_args_tokens ∧
  ∃ fuel0, ∀ fuel, (fuel0 ≤ fuel)%nat →
    (main (fixed healthy_tokens) demo_args_tokens no_clock fuel (fresh tt)).1
      ≠ Diverges.
Proof.
  assert (0 < ROWS_PER_CHUNK demo_args_tokens) as Hcs by reflexivity.
  assert (args_ok demo_args_tokens) as Hmt by (split; discriminate).
  split; [exact Hcs|]. split; [exact Hmt|].
  destruct (main_terminates (fixed healthy_tokens) demo_args_tokens no_clock
              Hcs Hmt (fresh tt)) as [fuel0 H].
  exists fuel0. intros fuel Hf. by destruct (H fuel Hf).
Defined.

(** The rows that the scan of the lossy table leaves in the buffer. *)
Lemma scan_buffer_rows_witness :
  ∃ rows : table,
    default [] (temp_output
      (scan (fixed lossy) demo_args 4 ["email"; "skyflow_id"; "name"] (JInt 5)
         (fresh tt)).2) = rows ∧
    Forall (λ r : row, length r = 3%nat) rows.
Proof.
  pose proof (scan_buffer_rows (fixed lossy) demo_args 4
                ["email"; "skyflow_id"; "name"] (JInt 5) (fresh tt)) as H.
  cbv zeta in H. destruct H as (rows & Hb & Hr & _).
  exists rows. split; [exact Hb|exact Hr].
Defined.

(** The requests of the scan of the lossy table. *)
Lemma scan_request_budget_witness :
  let run := scan (fixed lossy) demo_args 4 ["email"; "skyflow_id"; "name"] (JInt 5)
               (fresh tt) in
  (length (concat run.1.2) ≤ length (http_log run.2) ≤ 3 * length (concat run.1.2))%nat.
Proof.
  intros run.
  pose proof (scan_request_budget (fixed lossy) demo_args 4
                ["email"; "skyflow_id"; "name"] 5 (fresh tt)) as H.
  cbv zeta in H. destruct H as (added & news & Hl & _ & _ & Hn).
  subst run. rewrite Hl. exact Hn.
Defined.

(** The log of a run in front of a service that is down. *)
Lemma logs_append_only_witness :
  [] `prefix_of` error_log (main down demo_args no_clock 1 (fresh tt)).2.
Proof.
  exact (proj1 (logs_append_only down demo_args no_clock 1 (fresh tt))).
Defined.

(** One failure, then an answer: two requests and one sleep. *)
Lemma make_api_call_shape_witness :
  let req := mkRequest GET (page_url "0") None in
  http_log (make_api_call scripted req (fresh flaky)).2 = [req; req] ∧
  slept (make_api_call scripted req (fresh flaky)).2 = [1].
Proof.
  intros req.
  destruct (make_api_call_shape scripted req (fresh flaky)) as (Hl & Hs & _).
  split; [exact Hl|exact Hs].
Defined.

(** The ragged page raises in the scan fetcher. *)
Lemma fetchers_exceptions_witness :
  (process_chunk (fixed ragged) demo_args ["email"; "skyflow_id"; "name"] 0
     (fresh tt)).1 = inl (ValueError "dict contains fields not in fieldnames") ∧
  error_log (process_chunk (fixed ragged) demo_args ["email"; "skyflow_id"; "name"] 0
               (fresh tt)).2 = [].
Proof.
  assert ((process_chunk (fixed ragged) demo_args ["email"; "skyflow_id"; "name"] 0
             (fresh tt)).1 = inl (ValueError "dict contains fields not in fieldnames"))
    as H by (vm_compute; reflexivity).
  split; [exact H|].
  destruct (fetchers_exceptions (fixed ragged) demo_args
              ["email"; "skyflow_id"; "name"] 0 [] (fresh tt)
              (ValueError "dict contains fields not in fieldnames")) as [Hp _].
  destruct (Hp H) as (_ & Hl & _). exact Hl.
Defined.
